(** * Sandboxed tool layer and agent loop of agent-skills-go

    A shallow embedding of the Go sources of agent-skills-go that decide
    the path guard, the command guard, the run_shell / write_file tools,
    the tool registry with its JSON envelope, and the two agent loops.

    Strings are [String.string]: Go strings are byte strings.  The parts
    of Go's standard library the code leans on ([path/filepath],
    [strings]) are written out at byte level, following the Go sources of
    those functions, in module [GoLib].  [filepath.Clean], [HasPrefix] and
    [TrimSpace] are exact on every byte string; [strings.ToLower],
    [strings.Fields], [strconv.Quote] and the rune walk of
    [parseCommandLine] are written for ASCII text (each one's comment says
    where Go differs beyond it), and the theorems whose statements reach
    past ASCII through them carry an [ascii_only] hypothesis. *)

From Stdlib Require Import ZArith Ascii String List Bool Lia DecimalString.
From Stdlib Require Import Sorting.Sorted Sorting.Permutation.
From stdpp Require Import base gmap strings list.

Import ListNotations.
Open Scope string_scope.
Set Warnings "-register-all".

(* ================================================================= *)
(** ** Go library functions used by the guards *)

Module GoLib.

Definition slash : ascii := "/"%char.
Definition dot : ascii := "."%char.

Definition is_sep (c : ascii) : bool := Ascii.eqb c slash.

(** [strings.HasPrefix] *)
Definition HasPrefix (s pre : string) : bool := String.prefix pre s.

(** [strings.Contains] *)
Fixpoint Contains (s sub : string) : bool :=
  String.prefix sub s ||
  match s with
  | EmptyString => false
  | String _ s' => Contains s' sub
  end.

(** [strings.Split(s, sep)] for a one-byte separator: [Split("", sep)]
    is [[""]]. *)
Fixpoint split_acc (sep : ascii) (cur : string) (s : string) : list string :=
  match s with
  | EmptyString => [cur]
  | String c s' =>
      if Ascii.eqb c sep then cur :: split_acc sep EmptyString s'
      else split_acc sep (cur ++ String c EmptyString) s'
  end.

Definition Split (s : string) (sep : ascii) : list string :=
  split_acc sep EmptyString s.

(** [strings.TrimSpace] is [TrimFunc(s, unicode.IsSpace)] on the
    bytes of [s] read as UTF-8.  The runes with [unicode.IsSpace] are
    '\t', '\n', '\v', '\f', '\r', ' ' (one byte each), U+0085, U+00A0
    (two bytes: C2 85, C2 A0) and U+1680, U+2000..U+200A, U+2028, U+2029,
    U+202F, U+205F, U+3000 (three bytes: E1 9A 80, E2 80 80..8A,
    E2 80 A8/A9/AF, E2 81 9F, E3 80 80).  An invalid byte decodes to
    [RuneError], which is not a space, so [TrimLeftFunc] drops exactly
    these encodings from the front.  [TrimRightFunc] reads the last rune
    with [DecodeLastRune], which starts at the last byte that is not a
    continuation byte (10xxxxxx); the bytes after the lead byte of each
    encoding above are continuation bytes, so it drops exactly these
    encodings from the back.  [is_space] is the one-byte case, also used
    by [Fields]. *)
Definition is_space (c : ascii) : bool :=
  let n := nat_of_ascii c in (Nat.leb 9 n && Nat.leb n 13) || Nat.eqb n 32.

Definition space2 (c d : ascii) : bool :=
  let x := nat_of_ascii c in let y := nat_of_ascii d in
  Nat.eqb x 194 && (Nat.eqb y 133 || Nat.eqb y 160).

Definition space3 (c d e : ascii) : bool :=
  let x := nat_of_ascii c in let y := nat_of_ascii d in let z := nat_of_ascii e in
  (Nat.eqb x 225 && Nat.eqb y 154 && Nat.eqb z 128) ||
  (Nat.eqb x 226 && Nat.eqb y 128 &&
     ((Nat.leb 128 z && Nat.leb z 138) || Nat.eqb z 168 || Nat.eqb z 169 || Nat.eqb z 175)) ||
  (Nat.eqb x 226 && Nat.eqb y 129 && Nat.eqb z 159) ||
  (Nat.eqb x 227 && Nat.eqb y 128 && Nat.eqb z 128).

(** [TrimLeftFunc(s, unicode.IsSpace)] on the byte list. *)
Fixpoint drop_spaces (l : list ascii) : list ascii :=
  match l with
  | [] => []
  | c :: l1 =>
      if is_space c then drop_spaces l1 else
      match l1 with
      | d :: l2 =>
          if space2 c d then drop_spaces l2 else
          match l2 with
          | e :: l3 => if space3 c d e then drop_spaces l3 else l
          | [] => l
          end
      | [] => l
      end
  end.

(** [TrimRightFunc(s, unicode.IsSpace)] on the reversed byte list: the
    last byte first. *)
Fixpoint drop_spaces_rev (l : list ascii) : list ascii :=
  match l with
  | [] => []
  | c :: l1 =>
      if is_space c then drop_spaces_rev l1 else
      match l1 with
      | d :: l2 =>
          if space2 d c then drop_spaces_rev l2 else
          match l2 with
          | e :: l3 => if space3 e d c then drop_spaces_rev l3 else l
          | [] => l
          end
      | [] => l
      end
  end.

Definition TrimSpace (s : string) : string :=
  string_of_list_ascii
    (rev (drop_spaces_rev (rev (drop_spaces (list_ascii_of_string s))))).

(** [strings.ToLower] for ASCII: the bytes [A]..[Z] become [a]..[z] and
    every other byte is kept.  Go's [ToLower] also lowers non-ASCII
    capitals (U+212A KELVIN SIGN becomes [k], [É] becomes [é]) and turns
    invalid UTF-8 into U+FFFD; this definition agrees with it on ASCII
    text only. *)
Definition lower_char (c : ascii) : ascii :=
  let n := nat_of_ascii c in
  if Nat.leb 65 n && Nat.leb n 90 then ascii_of_nat (n + 32) else c.

Fixpoint ToLower (s : string) : string :=
  match s with
  | EmptyString => EmptyString
  | String c s' => String (lower_char c) (ToLower s')
  end.

(** [filepath.Clean] (Unix).  The output buffer [out] of Go's [lazybuf]
    is kept reversed, so [out.append(c)] is [c :: out], [out.w] is its
    length and [out.w--] drops its head.  [copying] is the inner
    [for ; r < n && !IsPathSeparator(path[r]); r++] loop of the default
    case. *)

(** The [..] case when [out.w > dotdot]: [out.w--], then
    [for out.w > dotdot && !IsPathSeparator(out.index(out.w)) { out.w-- }]. *)
Fixpoint backtrack (dotdot : nat) (dropped : ascii) (out : list ascii)
  : list ascii :=
  if Nat.ltb dotdot (length out) && negb (is_sep dropped) then
    match out with
    | c :: out' => backtrack dotdot c out'
    | [] => []
    end
  else out.

Definition end_or_sep (p : list ascii) : bool :=
  match p with
  | [] => true
  | c :: _ => is_sep c
  end.

Fixpoint clean_loop (rooted : bool) (dotdot : nat) (out : list ascii)
  (copying : bool) (p : list ascii) : list ascii :=
  match p with
  | [] => out
  | c :: p' =>
      if is_sep c then clean_loop rooted dotdot out false p'
      else if copying then clean_loop rooted dotdot (c :: out) true p'
      else if Ascii.eqb c dot && end_or_sep p' then
        (* case path[r] == '.' && (r+1 == n || IsPathSeparator(path[r+1])) *)
        clean_loop rooted dotdot out false p'
      else
        let default_case :=
          (* if rooted && out.w != 1 || !rooted && out.w != 0 { append sep } *)
          let out1 :=
            if (rooted && negb (Nat.eqb (length out) 1))
               || (negb rooted && negb (Nat.eqb (length out) 0))
            then slash :: out else out in
          clean_loop rooted dotdot (c :: out1) true p' in
        match p' with
        | c2 :: p'' =>
            if Ascii.eqb c dot && Ascii.eqb c2 dot && end_or_sep p'' then
              (* case "..": r += 2 *)
              if Nat.ltb dotdot (length out) then
                match out with
                | d :: out' => clean_loop rooted dotdot (backtrack dotdot d out') false p''
                | [] => clean_loop rooted dotdot out false p''
                end
              else if negb rooted then
                let out1 := if Nat.ltb 0 (length out) then slash :: out else out in
                let out2 := dot :: dot :: out1 in
                clean_loop rooted (length out2) out2 false p''
              else clean_loop rooted dotdot out false p''
            else default_case
        | [] => default_case
        end
  end.

Definition Clean (path : string) : string :=
  match list_ascii_of_string path with
  | [] => "."
  | (c :: _) as p =>
      let rooted := is_sep c in
      let out0 := if rooted then [slash] else [] in
      let dd0 := if rooted then 1 else 0 in
      let out := clean_loop rooted dd0 out0 false p in
      match out with
      | [] => "."
      | _ => string_of_list_ascii (rev out)
      end
  end.

(** [filepath.IsAbs] (Unix). *)
Definition IsAbs (p : string) : bool :=
  match p with
  | String c _ => is_sep c
  | EmptyString => false
  end.

(** [filepath.Join] of two elements (Unix): the non-empty tail of the
    element list joined by "/" and cleaned. *)
Definition Join2 (a b : string) : string :=
  if negb (String.eqb a "") then Clean (a ++ "/" ++ b)
  else if negb (String.eqb b "") then Clean b
  else "".

(** [filepath.Abs]: [os.Getwd()] is the process working directory [cwd]
    (an absolute path); the [Getwd] failure branch is not modelled. *)
Definition Abs (cwd p : string) : string :=
  if IsAbs p then Clean p else Join2 cwd p.

(** [filepath.Base] (Unix). *)
Fixpoint strip_trailing_seps (r : list ascii) : list ascii :=
  match r with
  | c :: r' => if is_sep c then strip_trailing_seps r' else r
  | [] => []
  end.

Fixpoint last_elem (r : list ascii) : list ascii :=
  match r with
  | c :: r' => if is_sep c then [] else c :: last_elem r'
  | [] => []
  end.

Definition Base (path : string) : string :=
  if String.eqb path "" then "."
  else
    (* work on the reversed bytes: strip trailing seps, then keep the
       bytes after the last separator *)
    let r := strip_trailing_seps (rev (list_ascii_of_string path)) in
    match last_elem r with
    | [] => "/"
    | e => string_of_list_ascii (rev e)
    end.

(** [filepath.Rel] (Unix), following Go's index loop: [b0, bi] and
    [t0, ti] delimit the current elements of [base] and [targ]. *)
Definition sub (s : string) (i j : nat) : string := substring i (j - i) s.

Fixpoint elem_end (s : string) (i : nat) (fuel : nat) : nat :=
  match fuel with
  | O => i
  | S fuel' =>
      match String.get i s with
      | Some c => if is_sep c then i else elem_end s (S i) fuel'
      | None => i
      end
  end.

Fixpoint rel_loop (base targ : string) (b0 t0 : nat) (fuel : nat)
  : nat * nat * nat * nat :=
  let bl := String.length base in
  let tl := String.length targ in
  let bi := elem_end base b0 bl in
  let ti := elem_end targ t0 tl in
  match fuel with
  | O => (b0, bi, t0, ti)
  | S fuel' =>
      if negb (String.eqb (sub targ t0 ti) (sub base b0 bi)) then (b0, bi, t0, ti)
      else
        let bi' := if Nat.ltb bi bl then S bi else bi in
        let ti' := if Nat.ltb ti tl then S ti else ti in
        rel_loop base targ bi' ti' fuel'
  end.

Fixpoint count_sep (s : string) : nat :=
  match s with
  | EmptyString => 0
  | String c s' => (if is_sep c then 1 else 0) + count_sep s'
  end.

Fixpoint repeat_up (n : nat) : string :=
  match n with
  | O => ""
  | S n' => "/.." ++ repeat_up n'
  end.

Definition starts_with_sep (s : string) : bool :=
  match s with
  | String c _ => is_sep c
  | EmptyString => false
  end.

Definition Rel (basepath targpath : string) : option string :=
  let base0 := Clean basepath in
  let targ := Clean targpath in
  if String.eqb targ base0 then Some "."
  else
    let base := if String.eqb base0 "." then "" else base0 in
    if negb (Bool.eqb (starts_with_sep base) (starts_with_sep targ)) then None
    else
      let bl := String.length base in
      let tl := String.length targ in
      let '(b0, bi, t0, ti) := rel_loop base targ 0 0 (S (bl + tl)) in
      if String.eqb (sub base b0 bi) ".." then None
      else if negb (Nat.eqb b0 bl) then
        let seps := count_sep (sub base b0 bl) in
        Some (".." ++ repeat_up seps ++
              (if negb (Nat.eqb t0 tl) then "/" ++ sub targ t0 tl else ""))
      else Some (sub targ t0 tl).

(** [slices.Sort] on strings: byte-wise order, insertion sort. *)
Fixpoint insert_sorted (x : string) (l : list string) : list string :=
  match l with
  | [] => [x]
  | y :: l' => if String.ltb y x then y :: insert_sorted x l' else x :: l
  end.

Definition sort_strings (l : list string) : list string :=
  fold_right insert_sorted [] l.

(** [strings.Join] *)
Fixpoint Join (l : list string) (sep : string) : string :=
  match l with
  | [] => ""
  | [x] => x
  | x :: l' => x ++ sep ++ Join l' sep
  end.

(** [filepath.Dir] (Unix): everything up to the last separator, cleaned. *)
Fixpoint drop_elem (r : list ascii) : list ascii :=
  match r with
  | c :: r' => if is_sep c then r else drop_elem r'
  | [] => []
  end.

Definition Dir (path : string) : string :=
  Clean (string_of_list_ascii (rev (drop_elem (rev (list_ascii_of_string path))))).

End GoLib.

(* ================================================================= *)
(** ** Results and errors *)

(** A Go [(value, error)] pair where exactly one side is meaningful. *)
Inductive result (A E : Type) : Type :=
| Ok (a : A)
| Err (e : E).
Arguments Ok {A E} a.
Arguments Err {A E} e.

(* ================================================================= *)
(** ** PathGuard: [validatePathWithAllowedDirs] and its helpers *)

Module PathGuard.
Import GoLib.

Inductive path_error : Type :=
| ErrPathEmpty                                  (* "path cannot be empty" *)
| ErrTraversal (path : string)                  (* "path traversal not allowed: %s" *)
| ErrOutside (absPath : string) (roots : list string).
                    (* "path outside allowed directories: %s (allowed: %s)" *)

(** [err.Error()] of the three errors. *)
Definition path_error_msg (e : path_error) : string :=
  match e with
  | ErrPathEmpty => "path cannot be empty"
  | ErrTraversal p => "path traversal not allowed: " ++ p
  | ErrOutside a roots =>
      "path outside allowed directories: " ++ a ++ " (allowed: "
        ++ Join roots ", " ++ ")"
  end.

(** [normalizeAllowedDirs]: trim, drop empty, make absolute, clean,
    deduplicate through [seen], then [slices.Sort]. *)
Fixpoint normalize_loop (cwd : string) (seen : list string)
  (dirs : list string) (normalized : list string) : list string :=
  match dirs with
  | [] => normalized
  | dir0 :: dirs' =>
      let dir := TrimSpace dir0 in
      if String.eqb dir "" then normalize_loop cwd seen dirs' normalized
      else
        let abs := Clean (Abs cwd dir) in
        if existsb (String.eqb abs) seen then normalize_loop cwd seen dirs' normalized
        else normalize_loop cwd (abs :: seen) dirs' (normalized ++ [abs])
  end.

Definition normalizeAllowedDirs (cwd : string) (allowedDirs : list string)
  : list string :=
  sort_strings (normalize_loop cwd [] allowedDirs []).

(** The [for _, root := range roots] loop: [true] when some root accepts
    [absPath] (the function then returns [absPath, nil]). *)
Fixpoint some_root_accepts (absPath : string) (roots : list string) : bool :=
  match roots with
  | [] => false
  | root :: roots' =>
      match Rel root absPath with
      | None => some_root_accepts absPath roots'
      | Some rel =>
          if String.eqb rel "."
             || (negb (HasPrefix rel (".." ++ "/")) && negb (String.eqb rel ".."))
          then true
          else some_root_accepts absPath roots'
      end
  end.

(** The part of [validatePathWithAllowedDirs] after the traversal check;
    it is the same in both revisions. *)
Definition check_roots (cwd path cleanPath : string) (allowedDirs : list string)
  : result string path_error :=
  let absPath := Abs cwd cleanPath in
  let roots := normalizeAllowedDirs cwd allowedDirs in
  match roots with
  | [] => Ok absPath
  | _ => if some_root_accepts absPath roots then Ok absPath
         else Err (ErrOutside absPath roots)
  end.

(** [hasParentTraversal] (command.go). *)
Definition hasParentTraversal (cleanPath : string) : bool :=
  String.eqb cleanPath ".." || existsb (String.eqb "..") (Split cleanPath slash).

(** Revision of command.go: the traversal check looks for a [..]
    segment of the cleaned path. *)
Module Command.
Definition validatePathWithAllowedDirs (cwd path : string)
  (allowedDirs : list string) : result string path_error :=
  if String.eqb path "" then Err ErrPathEmpty
  else
    let cleanPath := Clean path in
    if hasParentTraversal cleanPath then Err (ErrTraversal path)
    else check_roots cwd path cleanPath allowedDirs.
End Command.

(** Revision of security.go: the traversal check is
    [strings.Contains(cleanPath, "..")]. *)
Module Security.
Definition validatePathWithAllowedDirs (cwd path : string)
  (allowedDirs : list string) : result string path_error :=
  if String.eqb path "" then Err ErrPathEmpty
  else
    let cleanPath := Clean path in
    if Contains cleanPath ".." then Err (ErrTraversal path)
    else check_roots cwd path cleanPath allowedDirs.
Definition validateWorkingDirWithAllowedDirs (cwd workingDir : string)
  (allowedDirs : list string) : result string path_error :=
  if String.eqb workingDir "" then Ok ""
  else validatePathWithAllowedDirs cwd workingDir allowedDirs.
End Security.

(** [validatePath] and [validateWorkingDirWithAllowedDirs]
    (command.go revision). *)
Definition validatePath (cwd path allowedDir : string) : result string path_error :=
  if String.eqb (TrimSpace allowedDir) "" then Command.validatePathWithAllowedDirs cwd path []
  else Command.validatePathWithAllowedDirs cwd path [allowedDir].

Definition validateWorkingDirWithAllowedDirs (cwd workingDir : string)
  (allowedDirs : list string) : result string path_error :=
  if String.eqb workingDir "" then Ok ""
  else Command.validatePathWithAllowedDirs cwd workingDir allowedDirs.

End PathGuard.

(* ================================================================= *)
(** ** CommandGuard: shell syntax, shell interpreters, denylist *)

Module CommandGuard.
Import GoLib.

(** [containsBlockedShellSyntax] (command.go): the first blocked token
    the command contains, in the order of the [blocked] slice. *)
Definition blocked_tokens : list string :=
  ["&&"; "||"; ";"; "|"; ">"; "<"; "`"; "$(";
   String (ascii_of_nat 10) ""; String (ascii_of_nat 13) ""].

Fixpoint first_blocked (command : string) (tokens : list string) : option string :=
  match tokens with
  | [] => None
  | tok :: tokens' =>
      if Contains command tok then Some tok else first_blocked command tokens'
  end.

Definition containsBlockedShellSyntax (command : string) : option string :=
  first_blocked command blocked_tokens.

(** [dangerousCommands] of command.go (a set). *)
Definition dangerousCommands : list string :=
  ["rm"; "rmdir"; "dd"; "mkfs"; "fdisk"; "shutdown"; "reboot"; "halt";
   "poweroff"; "init"; "killall"; "kill"; "pkill"; "killall5"; "chmod";
   "chown"; "chgrp"; "mount"; "umount"; "parted"; "sfdisk"; "wipefs";
   "mkfs.ext"; "mkfs.vfat"; "mkfs.ntfs"; "mkfs.ext2"; "mkfs.ext3";
   "mkfs.ext4"; "mkfs.xfs"; "mkfs.btrfs"].

Definition shellExecutables : list string := ["sh"; "bash"; "zsh"; "dash"; "fish"].

Definition mem (x : string) (l : list string) : bool := existsb (String.eqb x) l.

(** [isDangerousExecutable] (command.go). *)
Definition isDangerousExecutable (executable : string) : bool :=
  let baseCmd := ToLower (Base (TrimSpace executable)) in
  if String.eqb baseCmd "" then false else mem baseCmd dangerousCommands.

(** [isShellExecutable] (command.go). *)
Definition isShellExecutable (executable : string) : bool :=
  let baseCmd := ToLower (Base (TrimSpace executable)) in
  if String.eqb baseCmd "" then false else mem baseCmd shellExecutables.

(** [parseCommandLine] (command.go): the [for _, r := range input]
    loop over the state ([args] reversed, [current], [inSingle],
    [inDouble], [escaped]), walked byte by byte.  Go walks the runes of
    [input]; on ASCII input the two walks are the same.  (On other valid
    UTF-8 they still agree, since every byte the loop tests is ASCII and
    the bytes of a longer rune are copied in order; an invalid byte is
    copied here, where Go writes U+FFFD.) *)
Record parse_state : Type := {
  ps_args : list string;      (* reversed *)
  ps_current : string;
  ps_inSingle : bool;
  ps_inDouble : bool;
  ps_escaped : bool }.

Definition flush (st : parse_state) : parse_state :=
  if String.eqb (ps_current st) "" then st
  else {| ps_args := ps_current st :: ps_args st; ps_current := "";
          ps_inSingle := ps_inSingle st; ps_inDouble := ps_inDouble st;
          ps_escaped := ps_escaped st |}.

Definition write_rune (st : parse_state) (r : ascii) : parse_state :=
  {| ps_args := ps_args st; ps_current := ps_current st ++ String r "";
     ps_inSingle := ps_inSingle st; ps_inDouble := ps_inDouble st;
     ps_escaped := ps_escaped st |}.

Definition set_flags (st : parse_state) (sq dq esc : bool) : parse_state :=
  {| ps_args := ps_args st; ps_current := ps_current st;
     ps_inSingle := sq; ps_inDouble := dq; ps_escaped := esc |}.

Definition parse_step (st : parse_state) (r : ascii) : parse_state :=
  if ps_escaped st then
    set_flags (write_rune st r) (ps_inSingle st) (ps_inDouble st) false
  else if Ascii.eqb r "\"%char && negb (ps_inSingle st) then
    set_flags st (ps_inSingle st) (ps_inDouble st) true
  else if Ascii.eqb r "'"%char && negb (ps_inDouble st) then
    set_flags st (negb (ps_inSingle st)) (ps_inDouble st) false
  else if Ascii.eqb r (ascii_of_nat 34) && negb (ps_inSingle st) then
    set_flags st (ps_inSingle st) (negb (ps_inDouble st)) false
  else if (Ascii.eqb r " "%char || Ascii.eqb r (ascii_of_nat 9))
          && negb (ps_inSingle st) && negb (ps_inDouble st) then
    flush st
  else write_rune st r.

Inductive parse_error : Type :=
| ErrUnterminatedEscape     (* "unterminated escape in command" *)
| ErrUnterminatedQuote.     (* "unterminated quote in command" *)

Definition parse_error_msg (e : parse_error) : string :=
  match e with
  | ErrUnterminatedEscape => "unterminated escape in command"
  | ErrUnterminatedQuote => "unterminated quote in command"
  end.

Definition parseCommandLine (input : string) : result (list string) parse_error :=
  let st := fold_left parse_step (list_ascii_of_string input)
              {| ps_args := []; ps_current := ""; ps_inSingle := false;
                 ps_inDouble := false; ps_escaped := false |} in
  if ps_escaped st then Err ErrUnterminatedEscape
  else if ps_inSingle st || ps_inDouble st then Err ErrUnterminatedQuote
  else Ok (rev (ps_args (flush st))).

(** [firstExecutableFromCommand] (command.go): the first argument of a
    command line that parses to at least one argument. *)
Definition firstExecutableFromCommand (cmd : string) : string * bool :=
  match parseCommandLine cmd with
  | Ok (arg0 :: _) => (arg0, true)
  | _ => ("", false)
  end.

(** [isDangerousCommand] (command.go). *)
Definition isDangerousCommand (cmd : string) : bool :=
  let '(executable, ok) := firstExecutableFromCommand cmd in
  if ok then isDangerousExecutable executable else false.

(** [sanitizedEnv] (command.go) over the process environment
    [environ] ([os.Environ()]): the inner loop breaks at the first
    matching prefix, so an entry is kept once. *)
Definition allowedPrefixes : list string :=
  ["PATH="; "HOME="; "USER="; "LOGNAME="; "SHELL="; "TMPDIR="; "TMP=";
   "TEMP="; "LANG="; "LC_"; "TERM="; "PWD="].

Definition sanitizedEnv (environ : list string) : list string :=
  List.filter (fun kv => existsb (fun prefix => HasPrefix kv prefix) allowedPrefixes) environ.

(** The older revision in security.go: [isDangerousCommand] splits with
    [strings.Fields] and compares [filepath.Base] of the first field
    with its own list, case-sensitively. *)
Module Security.
Definition dangerousCommands : list string :=
  ["rm"; "rmdir"; "dd"; "mkfs"; "fdisk"; "shutdown"; "reboot"; "halt";
   "poweroff"; "init"; "killall"; "kill"; "pkill"; "killall5";
   "chmod"; "chown"; "chgrp"; "mount"; "umount"; "mkfs"; "fdisk";
   "parted"; "sfdisk"; "wipefs"; "mkfs.ext"; "mkfs.vfat"; "mkfs.ntfs"].

(** [strings.Fields] for ASCII: fields are split at the six ASCII
    spaces.  Go's [Fields] also splits at the non-ASCII spaces of
    [unicode.IsSpace]; this definition agrees with it on ASCII text. *)
Fixpoint fields_acc (cur : string) (s : string) : list string :=
  match s with
  | EmptyString => if String.eqb cur "" then [] else [cur]
  | String c s' =>
      if is_space c then
        if String.eqb cur "" then fields_acc "" s' else cur :: fields_acc "" s'
      else fields_acc (cur ++ String c "") s'
  end.

Definition Fields (s : string) : list string := fields_acc "" s.

Definition isDangerousCommand (cmd : string) : bool :=
  if String.eqb cmd "" then false
  else match Fields cmd with
       | [] => false
       | part0 :: _ => mem (Base part0) dangerousCommands
       end.
End Security.

End CommandGuard.

(* ================================================================= *)
(** ** JSON values, [json.Unmarshal] into the tools' argument structs *)

Module Json.
Import GoLib.

(** A JSON value as [encoding/json] reads or writes it (numbers are the
    integers the tools use). *)
Inductive json : Type :=
| JNull
| JBool (b : bool)
| JInt (z : Z)
| JStr (s : string)
| JArr (l : list json)
| JObj (members : list (string * json)).

(** The text handed to a tool: either well-formed JSON or text on which
    [json.Unmarshal] stops with a [SyntaxError]. *)
Inductive arg_text : Type :=
| Text (v : json)
| TextTruncated                  (* "unexpected end of JSON input" *)
| TextBadChar (c : ascii).       (* "invalid character 'c' looking for beginning of value" *)

(** Kinds of the fields of the argument structs. *)
Inductive kind : Type := KString | KInt64 | KBool.

Inductive gofield : Type :=
| GString (s : string)
| GInt64 (z : Z)
| GBool (b : bool).

Definition zero_of (k : kind) : gofield :=
  match k with KString => GString "" | KInt64 => GInt64 0 | KBool => GBool false end.

Definition kind_name (k : kind) : string :=
  match k with KString => "string" | KInt64 => "int64" | KBool => "bool" end.

Definition json_kind_name (v : json) : string :=
  match v with
  | JNull => "null" | JBool _ => "bool" | JInt _ => "number" | JStr _ => "string"
  | JArr _ => "array" | JObj _ => "object"
  end.

Definition int64_min : Z := - 2 ^ 63.
Definition int64_max : Z := 2 ^ 63 - 1.

(** Decoding one member into a field of kind [k]: [None] is an
    [UnmarshalTypeError], [Some None] a [null] (the field keeps its value). *)
Definition decode_field (k : kind) (v : json) : option (option gofield) :=
  match k, v with
  | _, JNull => Some None
  | KString, JStr s => Some (Some (GString s))
  | KInt64, JInt z =>
      if (int64_min <=? z)%Z && (z <=? int64_max)%Z then Some (Some (GInt64 z)) else None
  | KBool, JBool b => Some (Some (GBool b))
  | _, _ => None
  end.

(** A decoded struct: its fields by json tag. *)
Definition assignment := list (string * gofield).

Fixpoint lookup_field (tag : string) (a : assignment) : option gofield :=
  match a with
  | [] => None
  | (t, v) :: a' => if String.eqb t tag then Some v else lookup_field tag a'
  end.

Definition set_field (tag : string) (v : gofield) (a : assignment) : assignment :=
  (tag, v) :: a.

(** The field a member key selects: tags are lower case, and
    [encoding/json] matches keys case-insensitively.  The key is folded
    with the ASCII [ToLower]; Go's fold also matches a few non-ASCII keys
    to these tags (U+017F LONG S folds to [s], U+212A KELVIN SIGN to
    [k]), so this agrees with Go on ASCII keys. *)
Fixpoint find_tag (key : string) (spec : list (string * kind)) : option (string * kind) :=
  match spec with
  | [] => None
  | (tag, k) :: spec' =>
      if String.eqb (ToLower key) tag then Some (tag, k) else find_tag key spec'
  end.

(** The members in order; decoding goes on after a type error and the
    first one is returned. *)
Fixpoint decode_members (spec : list (string * kind)) (ms : list (string * json))
  (a : assignment) (first_err : option string) : assignment * option string :=
  match ms with
  | [] => (a, first_err)
  | (key, v) :: ms' =>
      match find_tag key spec with
      | None => decode_members spec ms' a first_err
      | Some (tag, k) =>
          match decode_field k v with
          | Some None => decode_members spec ms' a first_err
          | Some (Some g) => decode_members spec ms' (set_field tag g a) first_err
          | None =>
              let e := "json: cannot unmarshal " ++ json_kind_name v
                       ++ " into Go struct field ." ++ tag ++ " of type " ++ kind_name k in
              decode_members spec ms' a
                (match first_err with Some _ => first_err | None => Some e end)
          end
      end
  end.

Definition syntax_error_msg (t : arg_text) : string :=
  match t with
  | TextBadChar c =>
      "invalid character '" ++ String c "" ++ "' looking for beginning of value"
  | _ => "unexpected end of JSON input"
  end.

(** [json.Unmarshal([]byte(argText), &args)] for a struct whose fields
    are described by [spec]; the result maps every tag to its value
    (zero value when absent). *)
Definition Unmarshal (spec : list (string * kind)) (t : arg_text)
  : result assignment string :=
  let zeros := map (fun '(tag, k) => (tag, zero_of k)) spec in
  match t with
  | Text JNull => Ok zeros
  | Text (JObj ms) =>
      match decode_members spec ms [] None with
      | (_, Some e) => Err e
      | (a, None) => Ok (app a zeros)
      end
  | Text v => Err ("json: cannot unmarshal " ++ json_kind_name v ++ " into Go value of type struct")
  | _ => Err (syntax_error_msg t)
  end.

Definition get_string (tag : string) (a : assignment) : string :=
  match lookup_field tag a with Some (GString s) => s | _ => "" end.
Definition get_int64 (tag : string) (a : assignment) : Z :=
  match lookup_field tag a with Some (GInt64 z) => z | _ => 0 end.
Definition get_bool (tag : string) (a : assignment) : bool :=
  match lookup_field tag a with Some (GBool b) => b | _ => false end.

End Json.

(* ================================================================= *)
(** ** The host: file system and process table *)

Module Host.
Import GoLib.

Inductive fnode : Type :=
| FFile (content : string)
| FDir.

(** A request to start a process: [exec.CommandContext(ctx, command,
    args...)] with [cmd.Dir] and the deadline (nanoseconds). *)
Record spawn_req : Type := {
  sp_command : string;
  sp_args : list string;
  sp_dir : string;
  sp_timeout : Z }.

(** How a started process ends, as [cmd.Run()] reports it. *)
Inductive proc_end : Type :=
| Exited (code : Z)            (* exit status [code] *)
| KilledAtDeadline             (* the context deadline killed it *)
| StartFailed (msg : string).  (* [exec: "x": executable file not found in $PATH] ... *)

Record proc_result : Type := {
  pr_end : proc_end;
  pr_stdout : string;
  pr_stderr : string;
  pr_duration_ms : Z }.

(** The host the tools act on: the files by absolute clean path, the
    processes started so far (most recent first), and how the OS answers
    a process start. *)
Record world : Type := {
  w_cwd : string;
  w_fs : gmap string fnode;
  w_spawned : list spawn_req;
  w_proc : spawn_req -> proc_result }.

Definition with_fs (w : world) (fs : gmap string fnode) : world :=
  {| w_cwd := w_cwd w; w_fs := fs; w_spawned := w_spawned w; w_proc := w_proc w |}.

Definition with_spawn (w : world) (r : spawn_req) : world :=
  {| w_cwd := w_cwd w; w_fs := w_fs w; w_spawned := r :: w_spawned w; w_proc := w_proc w |}.

(** [os.Stat]: the node at [p]; "/" is always a directory. *)
Definition Stat (fs : gmap string fnode) (p : string) : option fnode :=
  if String.eqb p "/" then Some FDir else fs !! p.

Definition is_dir (fs : gmap string fnode) (p : string) : bool :=
  match Stat fs p with Some FDir => true | _ => false end.

(** [os.Mkdir]. *)
Definition Mkdir (fs : gmap string fnode) (p : string) : result (gmap string fnode) string :=
  match Stat fs p with
  | Some _ => Err ("mkdir " ++ p ++ ": file exists")
  | None =>
      if is_dir fs (Dir p) then Ok (<[p := FDir]> fs)
      else Err ("mkdir " ++ p ++ ": no such file or directory")
  end.

(** [path[:j-1]] of [os.MkdirAll]: drop trailing separators, the last
    element and the separator before it; [None] when [j <= 1]. *)
Definition mkdir_parent (p : string) : option string :=
  match drop_elem (strip_trailing_seps (rev (list_ascii_of_string p))) with
  | _ :: (_ :: _) as r => Some (string_of_list_ascii (rev r))
  | _ => None
  end.

(** [os.MkdirAll]. *)
Fixpoint MkdirAll_fuel (fuel : nat) (fs : gmap string fnode) (p : string)
  : result (gmap string fnode) string :=
  match Stat fs p with
  | Some FDir => Ok fs
  | Some (FFile _) => Err ("mkdir " ++ p ++ ": not a directory")
  | None =>
      let parent_done :=
        match mkdir_parent p, fuel with
        | Some parent, S fuel' => MkdirAll_fuel fuel' fs parent
        | _, _ => Ok fs
        end in
      match parent_done with
      | Err e => Err e
      | Ok fs1 =>
          match Mkdir fs1 p with
          | Ok fs2 => Ok fs2
          | Err e => if is_dir fs1 p then Ok fs1 else Err e
          end
      end
  end.

Definition MkdirAll (fs : gmap string fnode) (p : string) : result (gmap string fnode) string :=
  MkdirAll_fuel (String.length p) fs p.

(** [os.WriteFile] (open with [O_WRONLY|O_CREATE|O_TRUNC], then write). *)
Definition WriteFile (fs : gmap string fnode) (p content : string)
  : result (gmap string fnode) string :=
  match Stat fs p with
  | Some FDir => Err ("open " ++ p ++ ": is a directory")
  | _ =>
      if is_dir fs (Dir p) then Ok (<[p := FFile content]> fs)
      else Err ("open " ++ p ++ ": no such file or directory")
  end.

End Host.

(* ================================================================= *)
(** ** ToolRegistry: the envelope, the process runner and the tools *)

Module Tools.
Import GoLib PathGuard CommandGuard Json Host.

(** [fmt] of an [int]. *)
Definition Z_to_str (z : Z) : string := NilEmpty.string_of_int (Z.to_int z).

(** [%q] of a string, [strconv.Quote], on its ASCII bytes: the double
    quote and the backslash are escaped, the printable bytes 0x20..0x7E
    are copied, '\a', '\b', '\f', '\n', '\r', '\t', '\v' become their
    two-character escapes, and the other control bytes and DEL become
    [\x] with two lower-case hex digits.  A byte from 0x80 on is copied:
    Go copies it when it belongs to a printable rune and escapes it
    otherwise, which needs the Unicode tables; the statements below apply
    [go_quote] to ASCII text. *)
Definition quote_char : ascii := ascii_of_nat 34.
Definition backslash : ascii := ascii_of_nat 92.

(** [lowerhex[n]] for [n < 16]. *)
Definition hex_digit (n : nat) : ascii :=
  ascii_of_nat (if Nat.ltb n 10 then 48 + n else 87 + n).

Fixpoint quote_body (s : string) : string :=
  match s with
  | EmptyString => ""
  | String c s' =>
      let n := nat_of_ascii c in
      (if Nat.eqb n 34 then String backslash (String quote_char "")
       else if Nat.eqb n 92 then String backslash (String backslash "")
       else if Nat.leb 32 n && Nat.leb n 126 then String c ""
       else if Nat.eqb n 7 then String backslash "a"
       else if Nat.eqb n 8 then String backslash "b"
       else if Nat.eqb n 12 then String backslash "f"
       else if Nat.eqb n 10 then String backslash "n"
       else if Nat.eqb n 13 then String backslash "r"
       else if Nat.eqb n 9 then String backslash "t"
       else if Nat.eqb n 11 then String backslash "v"
       else if Nat.ltb n 128 then
         String backslash (String "x" (String (hex_digit (n / 16)) (String (hex_digit (n mod 16)) "")))
       else String c "") ++ quote_body s'
  end.

Definition go_quote (s : string) : string :=
  String quote_char (quote_body s ++ String quote_char "").

(** [commandResult]. *)
Record commandResult : Type := {
  Command : string;
  Args : list string;
  WorkingDir : string;
  ExitCode : Z;
  Stdout : string;
  Stderr : string;
  DurationMs : Z;
  Error : string }.

(** The [data] a tool hands to [marshalToolResponse]. *)
Inductive payload : Type :=
| PCommand (r : commandResult)
| PWrite (path : string) (bytes : Z)
| PRead (path : string) (bytes : Z) (truncated : bool) (content : string).

(** A struct member, dropped when tagged [omitempty] and empty. *)
Definition omit_empty_str (tag : string) (s : string) : list (string * json) :=
  if String.eqb s "" then [] else [(tag, JStr s)].

Definition commandResult_json (r : commandResult) : json :=
  JObj ([("command", JStr (Command r))]
        ++ (match Args r with [] => [] | l => [("args", JArr (map JStr l))] end)
        ++ omit_empty_str "working_dir" (WorkingDir r)
        ++ [("exit_code", JInt (ExitCode r))]
        ++ omit_empty_str "stdout" (Stdout r)
        ++ omit_empty_str "stderr" (Stderr r)
        ++ [("duration_ms", JInt (DurationMs r))]
        ++ omit_empty_str "error" (Error r))%list.

Definition payload_json (d : payload) : json :=
  match d with
  | PCommand r => commandResult_json r
  | PWrite p n => JObj [("path", JStr p); ("bytes", JInt n)]
  | PRead p n t c =>
      JObj [("path", JStr p); ("bytes", JInt n); ("truncated", JBool t); ("content", JStr c)]
  end.

(** [marshalToolResponse]: the [toolResponse] struct
    [{OK json:"ok"; Tool json:"tool,omitempty"; Data json:"data,omitempty";
      Err json:"error,omitempty"}] as [json.Marshal] lays it out.  Go's
    [json.Marshal] fails only on channels, functions, cyclic values or
    non-finite floats; the payloads hold strings, integers, booleans and
    string slices, so the [marshalErr] branch is never taken and the
    function is total here. *)
Definition marshalToolResponse (tool : string) (data : option payload)
  (err : option string) : json :=
  JObj ([("ok", JBool (match err with None => true | Some _ => false end))]
        ++ omit_empty_str "tool" tool
        ++ (match data with Some d => [("data", payload_json d)] | None => [] end)
        ++ (match err with Some e => omit_empty_str "error" e | None => [] end))%list.

(** [time.Duration(n) * time.Second] with int64 wrap-around. *)
Definition wrap64 (z : Z) : Z := (Z.modulo (z + 2 ^ 63) (2 ^ 64) - 2 ^ 63)%Z.
Definition second : Z := 1000000000.

(** The error [cmd.Run()] returns for each way a process ends
    ([os/exec]): a non-zero exit or a kill is an [*exec.ExitError] whose
    [ExitCode()] is the status, or -1 for a process ended by a signal. *)
Inductive run_error : Type :=
| ExitErr (code : Z) (msg : string)
| DeadlineErr
| OtherErr (msg : string).

Definition wait_error (e : proc_end) : option run_error :=
  match e with
  | Exited 0 => None
  | Exited c => Some (ExitErr c ("exit status " ++ Z_to_str c))
  | KilledAtDeadline => Some (ExitErr (-1) "signal: killed")
  | StartFailed m => Some (OtherErr m)
  end.

(** [runCommand]: default timeout, start through the host, then the
    [exitCode] / [errText] computation. *)
Definition runCommand (w : world) (command : string) (args : list string)
  (workingDir : string) (timeout : Z) : commandResult * world :=
  let timeout := if (timeout <=? 0)%Z then (60 * second)%Z else timeout in
  let req := {| sp_command := command; sp_args := args; sp_dir := workingDir;
                sp_timeout := timeout |} in
  let r := w_proc w req in
  let '(exitCode, errText) :=
    match wait_error (pr_end r) with
    | None => (0%Z, "")
    | Some (ExitErr c m) => (c, m)
    | Some DeadlineErr => ((-1)%Z, "context deadline exceeded")
    | Some (OtherErr m) => ((-1)%Z, m)
    end in
  ({| Command := command; Args := args; WorkingDir := workingDir;
      ExitCode := exitCode; Stdout := pr_stdout r; Stderr := pr_stderr r;
      DurationMs := pr_duration_ms r; Error := errText |},
   with_spawn w req).

(** The [Ctx] of the tool context: nil, live, or done with [ctx.Err()]. *)
Inductive ctx_state : Type := CtxNil | CtxLive | CtxCanceled | CtxDeadlineExceeded.

Definition ctx_err (c : ctx_state) : option string :=
  match c with
  | CtxCanceled => Some "context canceled"
  | CtxDeadlineExceeded => Some "context deadline exceeded"
  | _ => None
  end.

Record toolContext : Type := {
  MaxReadBytes : Z;
  AllowedDirs : list string;
  AllowedDir : string;       (* the field the root WriteFileTool reads *)
  Ctx : ctx_state }.

Definition run_shell_fields : list (string * kind) :=
  [("command", KString); ("working_dir", KString); ("timeout_seconds", KInt64)].

Definition fail (tool : string) (w : world) (e : string) : json * world :=
  (marshalToolResponse tool None (Some e), w).

(** [runShellTool.execute] (pkg/tools and pkg/agentskills). *)
Definition runShell_execute (ctx : toolContext) (w : world) (argText : arg_text)
  : json * world :=
  match Unmarshal run_shell_fields argText with
  | Err e => fail "run_shell" w e
  | Ok a =>
      let command := get_string "command" a in
      if String.eqb command "" then fail "run_shell" w "command is required" else
      match containsBlockedShellSyntax command with
      | Some tok => fail "run_shell" w ("shell control syntax not allowed: " ++ go_quote tok)
      | None =>
      match parseCommandLine command with
      | Err pe => fail "run_shell" w ("invalid command: " ++ parse_error_msg pe)
      | Ok [] => fail "run_shell" w "command is required"
      | Ok (argv0 :: argv_rest) =>
      match validateWorkingDirWithAllowedDirs (w_cwd w) (get_string "working_dir" a)
              (AllowedDirs ctx) with
      | Err pe => fail "run_shell" w ("working directory validation failed: " ++ path_error_msg pe)
      | Ok validatedWorkingDir =>
          let timeout := wrap64 (get_int64 "timeout_seconds" a * second) in
          if isShellExecutable argv0 then
            fail "run_shell" w ("shell executables are not allowed: " ++ argv0)
          else if isDangerousExecutable argv0 then
            fail "run_shell" w ("dangerous command not allowed: " ++ argv0)
          else
            let '(result, w') := runCommand w argv0 argv_rest validatedWorkingDir timeout in
            (marshalToolResponse "run_shell" (Some (PCommand result)) None, w')
      end
      end
      end
  end.

(** [RunShellTool.Execute] of the root package (tools_runshell.go, first
    revision): the command string goes to [bash -lc] after the
    security.go denylist check. *)
Definition runShell_execute_bash (ctx : toolContext) (w : world) (argText : arg_text)
  : json * world :=
  match Unmarshal run_shell_fields argText with
  | Err e => fail "run_shell" w e
  | Ok a =>
      let command := get_string "command" a in
      if String.eqb command "" then fail "run_shell" w "command is required" else
      match PathGuard.Security.validateWorkingDirWithAllowedDirs (w_cwd w)
              (get_string "working_dir" a) (AllowedDirs ctx) with
      | Err pe => fail "run_shell" w ("working directory validation failed: " ++ path_error_msg pe)
      | Ok validatedWorkingDir =>
          let timeout := wrap64 (get_int64 "timeout_seconds" a * second) in
          if CommandGuard.Security.isDangerousCommand command then
            fail "run_shell" w ("dangerous command not allowed: " ++ command)
          else
            let '(result, w') := runCommand w "bash" ["-lc"; command] validatedWorkingDir timeout in
            (marshalToolResponse "run_shell" (Some (PCommand result)) None, w')
      end
  end.

Definition write_file_fields : list (string * kind) :=
  [("path", KString); ("content", KString); ("overwrite", KBool)].

(** [WriteFileTool.Execute] of the root package (unnamed/part_000). *)
Definition writeFile_execute (ctx : toolContext) (w : world) (argText : arg_text)
  : json * world :=
  match Unmarshal write_file_fields argText with
  | Err e => fail "write_file" w e
  | Ok a =>
      let path := get_string "path" a in
      let content := get_string "content" a in
      if String.eqb path "" then fail "write_file" w "path is required" else
      match validatePath (w_cwd w) path (AllowedDir ctx) with
      | Err pe => fail "write_file" w ("path validation failed: " ++ path_error_msg pe)
      | Ok validatedPath =>
          match (if get_bool "overwrite" a then None else Stat (w_fs w) validatedPath) with
          | Some _ => fail "write_file" w ("file exists: " ++ validatedPath)
          | None =>
              let dir := Dir validatedPath in
              let mk := if negb (String.eqb dir ".") && negb (String.eqb dir "")
                        then MkdirAll (w_fs w) dir else Ok (w_fs w) in
              match mk with
              | Err e => fail "write_file" w e
              | Ok fs1 =>
                  match WriteFile fs1 validatedPath content with
                  | Err e => fail "write_file" (with_fs w fs1) e
                  | Ok fs2 =>
                      (marshalToolResponse "write_file"
                         (Some (PWrite validatedPath (Z.of_nat (String.length content)))) None,
                       with_fs w fs2)
                  end
              end
          end
      end
  end.

(** [writeFileTool.execute] of pkg/tools (unnamed/part_010): the same
    steps, with the path checked against [AllowedDirs]. *)
Definition tools_writeFile_execute (ctx : toolContext) (w : world) (argText : arg_text)
  : json * world :=
  match Unmarshal write_file_fields argText with
  | Err e => fail "write_file" w e
  | Ok a =>
      let path := get_string "path" a in
      let content := get_string "content" a in
      if String.eqb path "" then fail "write_file" w "path is required" else
      match Command.validatePathWithAllowedDirs (w_cwd w) path (AllowedDirs ctx) with
      | Err pe => fail "write_file" w ("path validation failed: " ++ path_error_msg pe)
      | Ok validatedPath =>
          match (if get_bool "overwrite" a then None else Stat (w_fs w) validatedPath) with
          | Some _ => fail "write_file" w ("file exists: " ++ validatedPath)
          | None =>
              let dir := Dir validatedPath in
              let mk := if negb (String.eqb dir ".") && negb (String.eqb dir "")
                        then MkdirAll (w_fs w) dir else Ok (w_fs w) in
              match mk with
              | Err e => fail "write_file" w e
              | Ok fs1 =>
                  match WriteFile fs1 validatedPath content with
                  | Err e => fail "write_file" (with_fs w fs1) e
                  | Ok fs2 =>
                      (marshalToolResponse "write_file"
                         (Some (PWrite validatedPath (Z.of_nat (String.length content)))) None,
                       with_fs w fs2)
                  end
              end
          end
      end
  end.

Definition read_file_fields : list (string * kind) :=
  [("path", KString); ("max_bytes", KInt64)].

(** [validateFileExists]. *)
Definition validateFileExists (fs : gmap string fnode) (p : string) : option string :=
  match Stat fs p with
  | None => Some ("stat " ++ p ++ ": no such file or directory")
  | Some FDir => Some ("path is a directory: " ++ p)
  | Some (FFile _) => None
  end.

(** [readFileTool.execute] (pkg/agentskills). *)
Definition readFile_execute (ctx : toolContext) (w : world) (argText : arg_text)
  : json * world :=
  match Unmarshal read_file_fields argText with
  | Err e => fail "read_file" w e
  | Ok a =>
      let path := get_string "path" a in
      if String.eqb path "" then fail "read_file" w "path is required" else
      match Command.validatePathWithAllowedDirs (w_cwd w) path (AllowedDirs ctx) with
      | Err pe => fail "read_file" w ("path validation failed: " ++ path_error_msg pe)
      | Ok validatedPath =>
          match validateFileExists (w_fs w) validatedPath with
          | Some e => fail "read_file" w e
          | None =>
              let maxBytes0 := get_int64 "max_bytes" a in
              let maxBytes := if (maxBytes0 <=? 0)%Z then MaxReadBytes ctx else maxBytes0 in
              if (maxBytes <=? 0)%Z then fail "read_file" w "max_bytes must be greater than 0"
              else
                match Stat (w_fs w) validatedPath with
                | Some (FFile data0) =>
                    (* io.ReadAll(io.LimitReader(file, maxBytes+1)): the int64
                       maxBytes+1 wraps to the minimum at MaxInt64, and a
                       LimitReader with N <= 0 reads nothing *)
                    let data := substring 0 (Z.to_nat (wrap64 (maxBytes + 1))) data0 in
                    let truncated := (maxBytes <? Z.of_nat (String.length data))%Z in
                    let data := if truncated then substring 0 (Z.to_nat maxBytes) data else data in
                    (marshalToolResponse "read_file"
                       (Some (PRead validatedPath (Z.of_nat (String.length data)) truncated data))
                       None, w)
                | _ => fail "read_file" w ("open " ++ validatedPath ++ ": no such file or directory")
                end
          end
      end
  end.

(** The registry: tool name to tool, filled by [register]. *)
Inductive tool : Type := ReadFileTool | WriteFileTool | RunShellTool.

Definition name (t : tool) : string :=
  match t with
  | ReadFileTool => "read_file"
  | WriteFileTool => "write_file"
  | RunShellTool => "run_shell"
  end.

Definition tool_execute (t : tool) : toolContext -> world -> arg_text -> json * world :=
  match t with
  | ReadFileTool => readFile_execute
  | WriteFileTool => tools_writeFile_execute
  | RunShellTool => runShell_execute
  end.

(** The argument struct each tool decodes. *)
Definition tool_fields (t : tool) : list (string * kind) :=
  match t with
  | ReadFileTool => read_file_fields
  | WriteFileTool => write_file_fields
  | RunShellTool => run_shell_fields
  end.

Record Registry : Type := {
  registry : gmap string tool;
  reg_ctx : toolContext }.

Definition register (r : Registry) (t : tool) : Registry :=
  {| registry := <[name t := t]> (registry r); reg_ctx := reg_ctx r |}.

(** [New] of pkg/tools (tools.go) and [newTools] of pkg/agentskills
    (unnamed/part_012): read_file, write_file and run_shell.  The
    read_file of pkg/tools and the write_file of pkg/agentskills are not
    in the sources; each is modelled by its twin of the other package
    ([readFile_execute], pkg/agentskills; [tools_writeFile_execute],
    pkg/tools), which reads the same context fields. *)
Definition New (ctx : toolContext) : Registry :=
  register (register (register {| registry := ∅; reg_ctx := ctx |} ReadFileTool)
              WriteFileTool) RunShellTool.

Record ToolCall : Type := {
  call_id : string;
  call_name : string;
  call_arguments : arg_text }.

(** [Registry.Execute]: cancellation check, lookup, dispatch. *)
Definition Execute (r : Registry) (w : world) (call : ToolCall) : json * world :=
  match ctx_err (Ctx (reg_ctx r)) with
  | Some e => (marshalToolResponse (call_name call) None (Some e), w)
  | None =>
      match registry r !! call_name call with
      | None =>
          (marshalToolResponse (call_name call) None
             (Some ("unknown tool: " ++ call_name call)), w)
      | Some t => tool_execute t (reg_ctx r) w (call_arguments call)
      end
  end.

End Tools.

(* ================================================================= *)
(** ** AgentLoop (pkg/agent) and the chat loop of pkg/agentskills *)

Module Agent.
Import GoLib Json Host Tools.

(** [openai.ChatCompletionMessageParamUnion] as the loops build it. *)
Inductive message : Type :=
| SystemMessage (content : string)
| UserMessage (content : string)
| AssistantMessage (content : string) (tool_calls : list ToolCall)
| ToolMessage (output : json) (call_id : string).

(** [openai.ChatCompletionMessage]: what the model answers. *)
Record completion_message : Type := {
  Content : string;
  ToolCalls : list ToolCall }.

Definition ToParam (m : completion_message) : message :=
  AssistantMessage (Content m) (ToolCalls m).

(** One answer of [client.Chat.Completions.New]: a request error, a
    completion with no choices, or the first choice's message. *)
Inductive completion : Type :=
| RequestFailed (err : string)
| NoChoices
| Choice (m : completion_message).

(** The remote model: its answer to the [k]-th request of a loop, given
    the messages sent. *)
Definition model := nat -> list message -> completion.

(** [runOnce] / [runChatOnce] (non-streaming path; the streaming path
    accumulates the same message and only changes when text is shown). *)
Definition runOnce (c : completion) : result completion_message string :=
  match c with
  | RequestFailed e => Err e
  | NoChoices => Err "empty completion choices"
  | Choice m => Ok m
  end.

(** [appendToolResponses]: each call in order through [Registry.Execute],
    one tool message per call keyed by its id. *)
Fixpoint appendToolResponses (r : Registry) (w : world) (messages : list message)
  (calls : list ToolCall) : list message * world :=
  match calls with
  | [] => (messages, w)
  | call :: calls' =>
      let '(output, w') := Execute r w call in
      appendToolResponses r w' (app messages [ToolMessage output (call_id call)]) calls'
  end.

(** The state a loop threads: the host and the requests sent so far
    (most recent first); [length] of the latter counts round-trips. *)
Record loop_state : Type := {
  ls_world : world;
  ls_sent : list (list message) }.

Definition send (s : loop_state) (ms : list message) : loop_state :=
  {| ls_world := ls_world s; ls_sent := ms :: ls_sent s |}.

Definition set_world (s : loop_state) (w : world) : loop_state :=
  {| ls_world := w; ls_sent := ls_sent s |}.

Definition max_turns_error : string :=
  "max turns reached before assistant produced a final response".

(** [AgentLoop.runIteration]: [for turn := 0; turn < maxTurns; turn++];
    [remaining] counts the iterations left. *)
Fixpoint iterate (mdl : model) (r : Registry) (remaining turn : nat)
  (currentMessages : list message) (s : loop_state)
  : result completion_message string * loop_state :=
  match remaining with
  | O => (Err max_turns_error, s)
  | S remaining' =>
      let s1 := send s currentMessages in
      match runOnce (mdl turn currentMessages) with
      | Err e => (Err e, s1)
      | Ok m =>
          match ToolCalls m with
          | [] => (Ok m, s1)
          | calls =>
              let '(cur, w') :=
                appendToolResponses r (ls_world s1) (app currentMessages [ToParam m]) calls in
              iterate mdl r remaining' (S turn) cur (set_world s1 w')
          end
      end
  end.

Definition runIteration (mdl : model) (r : Registry) (messages : list message)
  (maxTurns : Z) (s : loop_state) : result completion_message string * loop_state :=
  iterate mdl r (Z.to_nat maxTurns) 0 messages s.

(** [AgentLoop]: the fields [Run] reads and writes. *)
Record AgentLoop : Type := {
  MaxTurns : Z;            (* config.MaxTurns, after config.Normalize *)
  tools : Registry;
  history : list message }.

Definition set_history (a : AgentLoop) (h : list message) : AgentLoop :=
  {| MaxTurns := MaxTurns a; tools := tools a; history := h |}.

(** [AgentLoop.Run]. *)
Definition Run (mdl : model) (a : AgentLoop) (s : loop_state) (userInput0 : string)
  : result completion_message string * AgentLoop * loop_state :=
  let userInput := TrimSpace userInput0 in
  if String.eqb userInput "" then (Err "user input is required", a, s)
  else
    let previousLen := length (history a) in
    let a1 := set_history a (app (history a) [UserMessage userInput]) in
    match runIteration mdl (tools a1) (history a1) (MaxTurns a1) s with
    | (Err e, s') => (Err e, set_history a1 (firstn previousLen (history a1)), s')
    | (Ok m, s') => (Ok m, set_history a1 (app (history a1) [ToParam m]), s')
    end.

(** [config.Normalize] / [normalizeConfig] on the turn budget. *)
Definition normalize_max_turns (maxTurns : Z) : Z :=
  if (maxTurns <=? 0)%Z then 1%Z else maxTurns.

(** [App.runChatLoop] (pkg/agentskills/chat_loop.go), non-streaming. *)
Definition chat_max_turns_error : string := "max turns reached without assistant content".

Fixpoint chat_iterate (mdl : model) (r : Registry) (remaining turn : nat)
  (messages currentMessages : list message) (lastContent : string) (s : loop_state)
  : result (list message * string) string * loop_state :=
  match remaining with
  | O =>
      if String.eqb lastContent "" then (Err chat_max_turns_error, s)
      else (Ok (currentMessages, lastContent), s)
  | S remaining' =>
      let s1 := send s currentMessages in
      match runOnce (mdl turn currentMessages) with
      | Err e => (Err e, s1)
      | Ok m =>
          let lastContent :=
            if negb (String.eqb (TrimSpace (Content m)) "") then Content m else lastContent in
          match ToolCalls m with
          | [] =>
              let lastContent := if String.eqb lastContent "" then Content m else lastContent in
              (Ok (app currentMessages [ToParam m], lastContent), s1)
          | calls =>
              let '(cur, w') :=
                appendToolResponses r (ls_world s1) (app currentMessages [ToParam m]) calls in
              chat_iterate mdl r remaining' (S turn) messages cur lastContent (set_world s1 w')
          end
      end
  end.

Definition runChatLoop (mdl : model) (r : Registry) (messages : list message)
  (maxTurns : Z) (s : loop_state) : result (list message * string) string * loop_state :=
  let maxTurns := if (maxTurns <=? 0)%Z then 1%Z else maxTurns in
  chat_iterate mdl r (Z.to_nat maxTurns) 0 messages messages "" s.

(** [App.Chat]: the requested budget, or the configured one when the
    request gives none (the loop's message conversion is [toOpenAIMessages],
    taken as given here). *)
Definition Chat (mdl : model) (r : Registry) (configMaxTurns : Z)
  (internalMessages : list message) (optsMaxTurns : Z) (s : loop_state)
  : result (list message * string) string * loop_state :=
  let maxTurns := if (optsMaxTurns <=? 0)%Z then configMaxTurns else optsMaxTurns in
  runChatLoop mdl r internalMessages maxTurns s.

(** The provider-agnostic [Message] of pkg/agentskills; [Role] is a Go
    string type, so any string can occur. *)
Record Message : Type := {
  Role : string;
  MsgContent : string }.

Definition RoleSystem : string := "system".
Definition RoleUser : string := "user".
Definition RoleAssistant : string := "assistant".

(** The [for i, msg := range messages] loop of [App.toOpenAIMessages]:
    [out] is the slice built so far, [i] the index of [msg]. *)
Fixpoint convert_loop (i : nat) (out : list message) (messages : list Message)
  : result (list message) string :=
  match messages with
  | [] => Ok out
  | msg :: rest =>
      if String.eqb (Role msg) RoleSystem then
        convert_loop (S i) (app out [SystemMessage (MsgContent msg)]) rest
      else if String.eqb (Role msg) RoleUser then
        convert_loop (S i) (app out [UserMessage (MsgContent msg)]) rest
      else if String.eqb (Role msg) RoleAssistant then
        convert_loop (S i) (app out [AssistantMessage (MsgContent msg) []]) rest
      else
        Err ("invalid message role at index " ++ Z_to_str (Z.of_nat i) ++ ": "
             ++ go_quote (Role msg))
  end.

(** [App.toOpenAIMessages]: the app's system prompt goes first when no
    message has the system role. *)
Definition toOpenAIMessages (systemPrompt : string) (messages : list Message)
  : result (list message) string :=
  let hasSystem := existsb (fun msg => String.eqb (Role msg) RoleSystem) messages in
  let out := if hasSystem then [] else [SystemMessage systemPrompt] in
  convert_loop 0 out messages.

(** [ChatResult] without the [Streamed] flag of the streaming path. *)
Record ChatResult : Type := {
  cr_Content : string;
  cr_Messages : list Message }.

(** [App.Chat] with its message conversion. *)
Definition ChatApp (mdl : model) (r : Registry) (configMaxTurns : Z)
  (systemPrompt : string) (messages : list Message) (optsMaxTurns : Z)
  (s : loop_state) : result ChatResult string * loop_state :=
  match toOpenAIMessages systemPrompt messages with
  | Err e => (Err e, s)
  | Ok internalMessages =>
      match Chat mdl r configMaxTurns internalMessages optsMaxTurns s with
      | (Err e, s') => (Err e, s')
      | (Ok (_, content), s') =>
          let updated :=
            if negb (String.eqb (TrimSpace content) "")
            then app messages [{| Role := RoleAssistant; MsgContent := content |}]
            else messages in
          (Ok {| cr_Content := content; cr_Messages := updated |}, s')
      end
  end.

(** One line of [runInteractiveMode] (interactive.go) once the input
    is trimmed and non-empty: append the user message, run the chat loop,
    and on error print it and drop the last message again. *)
Definition interactive_turn (mdl : model) (r : Registry) (maxTurns : Z)
  (messages : list message) (input : string) (s : loop_state)
  : list message * option string * loop_state :=
  let messages1 := app messages [UserMessage input] in
  match runChatLoop mdl r messages1 maxTurns s with
  | (Err e, s') => (firstn (length messages1 - 1) messages1, Some e, s')
  | (Ok (updatedMessages, _), s') => (updatedMessages, None, s')
  end.

(** Model round-trips made so far. *)
Definition round_trips (s : loop_state) : nat := length (ls_sent s).

(** A model that answers every request with at least one tool call. *)
Definition always_calls_tools (mdl : model) : Prop :=
  forall k ms, exists m, mdl k ms = Choice m /\ ToolCalls m <> [].

(** A model whose answers never carry non-blank text. *)
Definition never_speaks (mdl : model) : Prop :=
  forall k ms m, mdl k ms = Choice m -> TrimSpace (Content m) = "".

(** The texts of the model's answers to the requests [reqs], asked in
    order from turn [k] on: the content of each answer, [""] for a
    request that got no choice. *)
Fixpoint reply_texts (mdl : model) (k : nat) (reqs : list (list message)) : list string :=
  match reqs with
  | [] => []
  | req :: reqs' =>
      (match mdl k req with Choice m => Content m | _ => "" end)
        :: reply_texts mdl (S k) reqs'
  end.

(** Reading [texts] in order and remembering each one whose [TrimSpace]
    is not empty, starting from [acc]. *)
Definition last_nonblank_from (acc : string) (texts : list string) : string :=
  fold_left (fun acc t => if String.eqb (TrimSpace t) "" then acc else t) texts acc.

(** The last non-blank text of [texts], or [""] when there is none. *)
Definition last_nonblank (texts : list string) : string := last_nonblank_from "" texts.

End Agent.

(* ================================================================= *)
(** ** Configuration (pkg/config) *)

Module Config.
Import GoLib.

Record Config : Type := {
  SkillsDirs : list string;
  MaxTurns : Z;
  Verbose : bool;
  AllowedDir : string;
  APIKey : string;
  BaseURL : string;
  Model : string }.

(** The [for _, dir := range cfg.SkillsDirs] loop of [Normalize]. *)
Fixpoint normalize_skills (dirs : list string) (normalizedSkills : list string)
  : list string :=
  match dirs with
  | [] => normalizedSkills
  | dir0 :: dirs' =>
      let dir := TrimSpace dir0 in
      if String.eqb dir "" then normalize_skills dirs' normalizedSkills
      else normalize_skills dirs' (app normalizedSkills [dir])
  end.

(** [Normalize]. *)
Definition Normalize (cfg : Config) : Config :=
  {| SkillsDirs := normalize_skills (SkillsDirs cfg) [];
     MaxTurns := if (MaxTurns cfg <=? 0)%Z then 1%Z else MaxTurns cfg;
     Verbose := Verbose cfg;
     AllowedDir := TrimSpace (AllowedDir cfg);
     APIKey := TrimSpace (APIKey cfg);
     BaseURL := TrimSpace (BaseURL cfg);
     Model := TrimSpace (Model cfg) |}.

End Config.

(* ================================================================= *)
(** ** Sample hosts and tool arguments *)

Module Samples.
Import Json Host Tools.

(** A host whose processes all exit with [e]. *)
Definition proc_ending (e : proc_end) : spawn_req -> proc_result :=
  fun _ => {| pr_end := e; pr_stdout := ""; pr_stderr := ""; pr_duration_ms := 1 |}.

(** Working directory /sandbox, which exists and holds [files]. *)
Definition sandbox_world (files : list (string * string)) (e : proc_end) : world :=
  {| w_cwd := "/sandbox";
     w_fs := fold_right (fun '(p, c) fs => <[p := FFile c]> fs)
               (<["/sandbox" := FDir]> ∅) files;
     w_spawned := [];
     w_proc := proc_ending e |}.

Definition sandbox_ctx (c : ctx_state) : toolContext :=
  {| MaxReadBytes := 1048576; AllowedDirs := ["/sandbox"]; AllowedDir := "/sandbox";
     Ctx := c |}.

Definition shell_args (command : string) : arg_text :=
  Text (JObj [("command", JStr command)]).

Definition write_args (path content : string) (overwrite : bool) : arg_text :=
  Text (JObj [("path", JStr path); ("content", JStr content); ("overwrite", JBool overwrite)]).

Import Agent.

Definition sample_registry : Registry := New (sandbox_ctx CtxLive).

Definition start_state : loop_state :=
  {| ls_world := sandbox_world [] (Exited 0); ls_sent := [] |}.

Definition read_notes_call : ToolCall :=
  {| call_id := "call_1"; call_name := "read_file";
     call_arguments := Text (JObj [("path", JStr "notes.txt")]) |}.

(** A model that answers every request with [text] and a read_file call. *)
Definition tool_model (text : string) : model :=
  fun _ _ => Choice {| Content := text; ToolCalls := [read_notes_call] |}.

(** A model whose endpoint refuses every request. *)
Definition refusing_model : model := fun _ _ => RequestFailed "connection refused".

Definition sample_agent : AgentLoop :=
  {| MaxTurns := 3; tools := sample_registry; history := [SystemMessage "sys"] |}.

End Samples.

(* ================================================================= *)
(** ** Shapes of inputs used in the statements below *)

Module Inputs.
Import GoLib CommandGuard Json.

(** A character [parseCommandLine] copies as it is outside quotes: not
    a space, tab, single or double quote or backslash. *)
Definition plain_char (c : ascii) : bool :=
  negb (Ascii.eqb c " "%char || Ascii.eqb c (ascii_of_nat 9) || Ascii.eqb c "'"%char
        || Ascii.eqb c (ascii_of_nat 34) || Ascii.eqb c "\"%char).

Fixpoint plain (s : string) : bool :=
  match s with
  | EmptyString => true
  | String c s' => plain_char c && plain s'
  end.

(** A non-empty word of plain characters. *)
Definition plain_word (w : string) : bool := negb (String.eqb w "") && plain w.

(** Every byte of [s] is below 128. *)
Fixpoint ascii_only (s : string) : bool :=
  match s with
  | EmptyString => true
  | String c s' => Nat.ltb (nat_of_ascii c) 128 && ascii_only s'
  end.

(** [s] does not contain the character [c]. *)
Fixpoint lacks (c : ascii) (s : string) : bool :=
  match s with
  | EmptyString => true
  | String d s' => negb (Ascii.eqb d c) && lacks c s'
  end.

(** [s] with a backslash before each of its characters. *)
Fixpoint escape_all (s : string) : string :=
  match s with
  | EmptyString => EmptyString
  | String c s' => String "\"%char (String c (escape_all s'))
  end.

(** The state [parseCommandLine] starts from, and the same state with
    [A] below the arguments collected so far. *)
Definition parse_start : parse_state :=
  {| ps_args := []; ps_current := ""; ps_inSingle := false;
     ps_inDouble := false; ps_escaped := false |}.

Definition shift_args (A : list string) (st : parse_state) : parse_state :=
  {| ps_args := app (ps_args st) A; ps_current := ps_current st;
     ps_inSingle := ps_inSingle st; ps_inDouble := ps_inDouble st;
     ps_escaped := ps_escaped st |}.

(** The name of an environment entry [NAME=value]: the bytes before the
    first '='. *)
Fixpoint env_name (kv : string) : string :=
  match kv with
  | EmptyString => EmptyString
  | String c kv' => if Ascii.eqb c "="%char then EmptyString else String c (env_name kv')
  end.

Definition allowed_env_name (k : string) : bool :=
  existsb (String.eqb k)
    ["PATH"; "HOME"; "USER"; "LOGNAME"; "SHELL"; "TMPDIR"; "TMP"; "TEMP";
     "LANG"; "TERM"; "PWD"]
  || HasPrefix k "LC_".

(** read_file arguments with only a path. *)
Definition read_args (path : string) : arg_text := Text (JObj [("path", JStr path)]).

(** The roles [toOpenAIMessages] accepts, and the message each becomes. *)
Definition valid_role (r : string) : bool :=
  String.eqb r Agent.RoleSystem || String.eqb r Agent.RoleUser
  || String.eqb r Agent.RoleAssistant.

Definition role_message (msg : Agent.Message) : Agent.message :=
  if String.eqb (Agent.Role msg) Agent.RoleSystem then Agent.SystemMessage (Agent.MsgContent msg)
  else if String.eqb (Agent.Role msg) Agent.RoleUser then Agent.UserMessage (Agent.MsgContent msg)
  else Agent.AssistantMessage (Agent.MsgContent msg) [].

(** A model that asks for one tool call and then answers "done". *)
Definition answer_after_tool : Agent.model :=
  fun k _ => match k with
             | O => Agent.Choice {| Agent.Content := ""; Agent.ToolCalls := [Samples.read_notes_call] |}
             | S _ => Agent.Choice {| Agent.Content := "done"; Agent.ToolCalls := [] |}
             end.

End Inputs.

(* ================================================================= *)
(** * Properties *)

Module Facts.
Import GoLib PathGuard CommandGuard Json Host Tools Samples.

(** ** Strings *)

(* [String.append] does not unfold under [simpl] once stdpp is loaded;
   its two equations are used by rewriting instead. *)
Lemma str_app_nil_l (s : string) : "" ++ s = s.
Proof. reflexivity. Qed.

Lemma str_app_cons (c : ascii) (s t : string) : String c s ++ t = String c (s ++ t).
Proof. reflexivity. Qed.

Lemma str_app_nil_r (s : string) : s ++ "" = s.
Proof.
  induction s as [|c s IH]; [reflexivity|]. rewrite str_app_cons, IH. reflexivity.
Qed.

Lemma str_app_assoc (a b c : string) : a ++ b ++ c = (a ++ b) ++ c.
Proof.
  induction a as [|x a IH]; [reflexivity|]. rewrite !str_app_cons, IH. reflexivity.
Qed.

Lemma prefix_app (x b : string) : String.prefix x (x ++ b) = true.
Proof.
  induction x as [|c x IH]; [destruct b; reflexivity|]. rewrite str_app_cons. simpl.
  destruct (ascii_dec c c) as [_|n]; [exact IH | contradiction].
Qed.

Lemma Contains_middle (a x b : string) : Contains (a ++ x ++ b) x = true.
Proof.
  induction a as [|c a IH].
  - rewrite str_app_nil_l. destruct x as [|c x]; [destruct b; reflexivity|].
    simpl. rewrite prefix_app. destruct (ascii_dec c c); [reflexivity | contradiction].
  - rewrite str_app_cons. simpl. rewrite IH. apply orb_true_r.
Qed.

(** Every piece [strings.Split] returns is a substring of its input. *)
Lemma split_acc_piece (sep : ascii) (s cur x : string) :
  In x (split_acc sep cur s) -> exists a b, cur ++ s = a ++ x ++ b.
Proof.
  revert cur; induction s as [|c s IH]; intros cur Hin; simpl in Hin.
  - destruct Hin as [<-|[]]. exists "", "". reflexivity.
  - destruct (Ascii.eqb c sep).
    + destruct Hin as [<-|Hin].
      * exists "", (String c s). reflexivity.
      * destruct (IH "" Hin) as (a & b & Hab). rewrite str_app_nil_l in Hab.
        exists (cur ++ String c a), b.
        rewrite Hab, <- str_app_assoc, str_app_cons. reflexivity.
    + destruct (IH _ Hin) as (a & b & Hab).
      exists a, b. rewrite <- Hab, <- str_app_assoc, str_app_cons, str_app_nil_l.
      reflexivity.
Qed.

Lemma Split_piece_Contains (s x : string) :
  In x (Split s slash) -> Contains s x = true.
Proof.
  intros Hin. destruct (split_acc_piece _ _ _ _ Hin) as (a & b & Hab).
  rewrite str_app_nil_l in Hab. rewrite Hab. apply Contains_middle.
Qed.

Lemma Split_Clean_empty : Split (Clean "") slash = ["."].
Proof. vm_compute. reflexivity. Qed.

(** ** C1 *)

(** C1: whenever the cleaned path has a segment equal to [..], both
    revisions of [validatePathWithAllowedDirs] (command.go with
    [hasParentTraversal], security.go with [strings.Contains]) return the
    traversal error for the path, for every working directory and every
    list of allowed roots, the empty list included; so no accepted
    absolute path is returned. *)
Theorem validate_rejects_parent_segment (cwd path : string) (allowedDirs : list string) :
  In ".." (Split (Clean path) slash) ->
  Command.validatePathWithAllowedDirs cwd path allowedDirs = Err (ErrTraversal path) /\
  Security.validatePathWithAllowedDirs cwd path allowedDirs = Err (ErrTraversal path).
Proof.
  intros Hin.
  assert (Hne : String.eqb path "" = false).
  { destruct (String.eqb_spec path "") as [->|]; [|reflexivity].
    rewrite Split_Clean_empty in Hin. simpl in Hin. intuition discriminate. }
  unfold Command.validatePathWithAllowedDirs, Security.validatePathWithAllowedDirs.
  rewrite Hne.
  assert (Ht : hasParentTraversal (Clean path) = true).
  { unfold hasParentTraversal. apply orb_true_intro. right.
    apply existsb_exists. exists "..". split; [exact Hin | reflexivity]. }
  rewrite Ht, (Split_piece_Contains _ _ Hin). split; reflexivity.
Qed.

Lemma validate_rejects_parent_segment_witness :
  In ".." (Split (Clean "a/../../etc") slash) /\
  Command.validatePathWithAllowedDirs "/sandbox" "a/../../etc" [] = Err (ErrTraversal "a/../../etc") /\
  Security.validatePathWithAllowedDirs "/sandbox" "a/../../etc" [] = Err (ErrTraversal "a/../../etc").
Proof.
  assert (H : In ".." (Split (Clean "a/../../etc") slash)) by (vm_compute; tauto).
  split; [exact H|]. exact (validate_rejects_parent_segment "/sandbox" "a/../../etc" [] H).
Defined.

(** ** C4 *)

(** C4: a file name holding [..] inside a segment, [/sandbox/a..b.txt]
    under the root [/sandbox]: the command.go revision accepts it and
    returns the path, the security.go revision, whose check is
    [strings.Contains(cleanPath, "..")], refuses it as traversal. *)
Theorem double_dot_name_revisions :
  Split (Clean "/sandbox/a..b.txt") slash = [""; "sandbox"; "a..b.txt"] /\
  Command.validatePathWithAllowedDirs "/" "/sandbox/a..b.txt" ["/sandbox"]
    = Ok "/sandbox/a..b.txt" /\
  Security.validatePathWithAllowedDirs "/" "/sandbox/a..b.txt" ["/sandbox"]
    = Err (ErrTraversal "/sandbox/a..b.txt").
Proof. vm_compute. repeat split. Qed.

(** ** C2 and C3: the run_shell guards *)

Lemma Contains_empty (tok : string) : tok <> "" -> Contains "" tok = false.
Proof. destruct tok; [contradiction | reflexivity]. Qed.

Lemma blocked_token_nonempty (tok : string) : In tok blocked_tokens -> tok <> "".
Proof. simpl. intros H; repeat destruct H as [<-|H]; try discriminate; contradiction. Qed.

Lemma first_blocked_found (command tok : string) (toks : list string) :
  In tok toks -> Contains command tok = true ->
  exists tok', first_blocked command toks = Some tok' /\ In tok' toks.
Proof.
  induction toks as [|t toks IH]; simpl; [tauto|].
  intros [<-|Hin] Hc.
  - rewrite Hc. eauto.
  - destruct (Contains command t); [eauto|].
    destruct (IH Hin Hc) as (tok' & H1 & H2). eauto.
Qed.

(** C3 (amended): in the run_shell tool of pkg/tools and pkg/agentskills,
    a command containing one of the blocked tokens ([&&], [||], [;], [|],
    [>], [<], a backtick, [$(], newline, carriage return) is answered with
    ok:false and a shell-syntax error naming a blocked token, whatever its
    first word, and the host is left as it was: no process is started. *)
Theorem run_shell_rejects_control_syntax (ctx : toolContext) (w : world)
  (argText : arg_text) (a : assignment) (tok : string) :
  Unmarshal run_shell_fields argText = Ok a ->
  In tok blocked_tokens ->
  Contains (get_string "command" a) tok = true ->
  exists tok', In tok' blocked_tokens /\
    runShell_execute ctx w argText
    = (marshalToolResponse "run_shell" None
         (Some ("shell control syntax not allowed: " ++ go_quote tok')), w).
Proof.
  intros Hu Hin Hc.
  destruct (first_blocked_found _ _ _ Hin Hc) as (tok' & Hf & Hin').
  exists tok'. split; [exact Hin'|].
  unfold runShell_execute. rewrite Hu.
  destruct (String.eqb_spec (get_string "command" a) "") as [He|_].
  - rewrite He, Contains_empty in Hc; [discriminate|].
    exact (blocked_token_nonempty _ Hin).
  - unfold containsBlockedShellSyntax. rewrite Hf. reflexivity.
Qed.

Lemma run_shell_rejects_control_syntax_witness :
  exists tok', In tok' blocked_tokens /\
    runShell_execute (sandbox_ctx CtxLive) (sandbox_world [] (Exited 0))
      (shell_args "echo hi && ls")
    = (marshalToolResponse "run_shell" None
         (Some ("shell control syntax not allowed: " ++ go_quote tok')),
       sandbox_world [] (Exited 0)).
Proof.
  apply (run_shell_rejects_control_syntax _ _ _
           [("command", GString "echo hi && ls"); ("command", GString "");
            ("working_dir", GString ""); ("timeout_seconds", GInt64 0)] "&&").
  - vm_compute. reflexivity.
  - simpl. tauto.
  - vm_compute. reflexivity.
Defined.

(** The bash runner of the root package (tools_runshell.go) has no
    shell-syntax rule: [echo hi && ls] passes its denylist and is
    started as [bash -lc "echo hi && ls"]. *)
Lemma bash_runner_starts_control_syntax :
  w_spawned (snd (runShell_execute_bash (sandbox_ctx CtxLive) (sandbox_world [] (Exited 0))
                    (shell_args "echo hi && ls")))
  = [{| sp_command := "bash"; sp_args := ["-lc"; "echo hi && ls"]; sp_dir := "";
        sp_timeout := 60 * second |}].
Proof. vm_compute. reflexivity. Qed.

(** C2: the two revisions of the denylist disagree on case.  The
    command.go guard of the pkg/tools and pkg/agentskills run_shell tools
    lower-cases the base name ([isDangerousExecutable "/usr/bin/RM"]
    holds) and refuses [/usr/bin/RM -rf /tmp] without starting a
    process; the security.go [isDangerousCommand] that the root package's
    run_shell (tools_runshell.go) relies on compares the base name
    case-sensitively, accepts [/usr/bin/RM -rf /tmp] while refusing
    [/usr/bin/rm -rf /tmp], and that runner starts it under [bash -lc]. *)
Theorem uppercase_rm_guard_revisions :
  isDangerousExecutable "/usr/bin/RM" = true /\
  runShell_execute (sandbox_ctx CtxLive) (sandbox_world [] (Exited 0))
    (shell_args "/usr/bin/RM -rf /tmp")
  = (marshalToolResponse "run_shell" None (Some "dangerous command not allowed: /usr/bin/RM"),
     sandbox_world [] (Exited 0)) /\
  CommandGuard.Security.isDangerousCommand "/usr/bin/rm -rf /tmp" = true /\
  CommandGuard.Security.isDangerousCommand "/usr/bin/RM -rf /tmp" = false /\
  w_spawned (snd (runShell_execute_bash (sandbox_ctx CtxLive) (sandbox_world [] (Exited 0))
                    (shell_args "/usr/bin/RM -rf /tmp")))
  = [{| sp_command := "bash"; sp_args := ["-lc"; "/usr/bin/RM -rf /tmp"]; sp_dir := "";
        sp_timeout := 60 * second |}].
Proof. vm_compute. repeat split. Qed.

(** ** C5 and C6: the agent loops *)

Import Agent.

Lemma round_trips_send (s : loop_state) (ms : list message) (w : world) :
  round_trips (set_world (send s ms) w) = S (round_trips s).
Proof. reflexivity. Qed.

Lemma iterate_exhausts (mdl : model) (r : Registry) (n turn : nat)
  (cur : list message) (s : loop_state) :
  always_calls_tools mdl ->
  exists s', iterate mdl r n turn cur s = (Err max_turns_error, s') /\
             round_trips s' = n + round_trips s.
Proof.
  intros Hm. revert turn cur s.
  induction n as [|n IH]; intros turn cur s; cbn -[appendToolResponses].
  - exists s. split; reflexivity.
  - destruct (Hm turn cur) as (m & Hc & Hcalls). rewrite Hc. cbn -[appendToolResponses].
    destruct (ToolCalls m) as [|c cs]; [contradiction|].
    match goal with
    | |- context [appendToolResponses ?r0 ?w0 ?ms0 ?cs0] =>
        destruct (appendToolResponses r0 w0 ms0 cs0) as [cur' w']
    end.
    destruct (IH (S turn) cur' (set_world (send s cur) w')) as (s' & H1 & H2).
    exists s'. split; [exact H1|]. rewrite H2, round_trips_send. lia.
Qed.

Lemma chat_iterate_exhausts (mdl : model) (r : Registry) (n turn : nat)
  (msgs cur : list message) (lc : string) (s : loop_state) :
  always_calls_tools mdl ->
  (lc = "" \/ TrimSpace lc <> "") ->
  exists res s', chat_iterate mdl r n turn msgs cur lc s = (res, s') /\
    round_trips s' = n + round_trips s /\
    (res = Err chat_max_turns_error \/
     exists ms c, res = Ok (ms, c) /\ TrimSpace c <> "") /\
    (never_speaks mdl -> lc = "" -> res = Err chat_max_turns_error).
Proof.
  intros Hm. revert turn cur lc s.
  induction n as [|n IH]; intros turn cur lc s Hlc; cbn -[appendToolResponses].
  - destruct (String.eqb_spec lc "") as [->|Hne].
    + exists (Err chat_max_turns_error), s. repeat split; auto.
    + exists (Ok (cur, lc)), s. split; [reflexivity|]. split; [reflexivity|].
      split.
      * right. exists cur, lc. destruct Hlc; [contradiction|]. auto.
      * intros _ E. contradiction.
  - destruct (Hm turn cur) as (m & Hc & Hcalls). rewrite Hc. cbn -[appendToolResponses].
    destruct (ToolCalls m) as [|c cs]; [contradiction|].
    match goal with
    | |- context [appendToolResponses ?r0 ?w0 ?ms0 ?cs0] =>
        destruct (appendToolResponses r0 w0 ms0 cs0) as [cur' w']
    end.
    set (lc' := if negb (String.eqb (TrimSpace (Content m)) "") then Content m else lc).
    assert (Hlc' : lc' = "" \/ TrimSpace lc' <> "").
    { unfold lc'. destruct (String.eqb_spec (TrimSpace (Content m)) "") as [E|E];
        simpl; auto. }
    destruct (IH (S turn) cur' lc' (set_world (send s cur) w') Hlc')
      as (res & s' & H1 & H2 & H3 & H4).
    exists res, s'. split; [exact H1|]. split; [rewrite H2, round_trips_send; lia|].
    split; [exact H3|].
    intros Hq Hl. apply H4; [exact Hq|]. unfold lc'.
    rewrite (Hq _ _ _ Hc). simpl. exact Hl.
Qed.

Lemma chat_iterate_texts (mdl : model) (r : Registry) (n turn : nat)
  (msgs cur : list message) (lc : string) (s : loop_state) :
  always_calls_tools mdl ->
  exists reqs, length reqs = n /\
    ls_sent (snd (chat_iterate mdl r n turn msgs cur lc s)) = app (rev reqs) (ls_sent s) /\
    (last_nonblank_from lc (reply_texts mdl turn reqs) = "" ->
       fst (chat_iterate mdl r n turn msgs cur lc s) = Err chat_max_turns_error) /\
    (last_nonblank_from lc (reply_texts mdl turn reqs) <> "" ->
       exists ms, fst (chat_iterate mdl r n turn msgs cur lc s)
                  = Ok (ms, last_nonblank_from lc (reply_texts mdl turn reqs))).
Proof.
  intros Hm. revert turn cur lc s.
  induction n as [|n IH]; intros turn cur lc s.
  - exists []. cbn. split; [reflexivity|].
    destruct (String.eqb_spec lc "") as [->|Hne].
    + split; [reflexivity|]. split; [reflexivity | intros H; contradiction].
    + split; [reflexivity|]. split; [intros H; contradiction | eexists; reflexivity].
  - destruct (Hm turn cur) as (m & Hc & Hcalls).
    cbn -[appendToolResponses]. rewrite Hc. cbn -[appendToolResponses].
    destruct (ToolCalls m) as [|c cs] eqn:Ec; [contradiction|].
    match goal with
    | |- context [appendToolResponses ?r0 ?w0 ?ms0 ?cs0] =>
        destruct (appendToolResponses r0 w0 ms0 cs0) as [cur' w']
    end.
    set (lc' := if negb (String.eqb (TrimSpace (Content m)) "") then Content m else lc).
    destruct (IH (S turn) cur' lc' (set_world (send s cur) w'))
      as (reqs & H1 & H2 & H3 & H4).
    assert (Hstep : last_nonblank_from lc (reply_texts mdl turn (cur :: reqs))
                    = last_nonblank_from lc' (reply_texts mdl (S turn) reqs)).
    { cbn [reply_texts]. rewrite Hc. unfold last_nonblank_from. cbn [fold_left].
      unfold lc'. destruct (String.eqb (TrimSpace (Content m)) ""); reflexivity. }
    exists (cur :: reqs). rewrite Hstep. split; [cbn; lia|]. split.
    + rewrite H2. cbn. rewrite <- app_assoc. reflexivity.
    + split; assumption.
Qed.

(** C5 (amended): against a model that answers every request with a tool
    call, and a budget [N >= 1]: [AgentLoop.runIteration] makes exactly
    [N] round-trips and returns the budget error; [runChatLoop] also makes
    exactly [N] round-trips (the requests [reqs], recorded in order), and
    returns its budget error exactly when none of the answers to them
    carried non-blank text, and otherwise success with the last non-blank
    text; in particular, when no answer carries text it returns the
    budget error. *)
Theorem tool_calling_model_exhausts_budget (mdl : model) (r : Registry)
  (msgs : list message) (N : Z) (s : loop_state) :
  (1 <= N)%Z -> always_calls_tools mdl ->
  (exists s', runIteration mdl r msgs N s = (Err max_turns_error, s') /\
              round_trips s' = Z.to_nat N + round_trips s) /\
  (exists res s', runChatLoop mdl r msgs N s = (res, s') /\
     round_trips s' = Z.to_nat N + round_trips s /\
     (res = Err chat_max_turns_error \/
      exists ms c, res = Ok (ms, c) /\ TrimSpace c <> "") /\
     (never_speaks mdl -> res = Err chat_max_turns_error) /\
     exists reqs, length reqs = Z.to_nat N /\
       ls_sent s' = app (rev reqs) (ls_sent s) /\
       (last_nonblank (reply_texts mdl 0 reqs) = "" ->
          res = Err chat_max_turns_error) /\
       (last_nonblank (reply_texts mdl 0 reqs) <> "" ->
          exists ms, res = Ok (ms, last_nonblank (reply_texts mdl 0 reqs)))).
Proof.
  intros HN Hm. split.
  - apply iterate_exhausts. exact Hm.
  - unfold runChatLoop.
    replace ((N <=? 0)%Z) with false by (symmetry; apply Z.leb_gt; lia).
    destruct (chat_iterate_exhausts mdl r (Z.to_nat N) 0 msgs msgs "" s Hm (or_introl eq_refl))
      as (res & s' & H1 & H2 & H3 & H4).
    destruct (chat_iterate_texts mdl r (Z.to_nat N) 0 msgs msgs "" s Hm)
      as (reqs & T1 & T2 & T3 & T4).
    rewrite H1 in T2, T3, T4. cbn [fst snd] in T2, T3, T4.
    exists res, s'. split; [exact H1|]. split; [exact H2|]. split; [exact H3|].
    split; [intros Hq; apply H4; auto|].
    exists reqs. unfold last_nonblank. auto.
Qed.

Lemma tool_model_calls (text : string) : always_calls_tools (tool_model text).
Proof. intros k ms. eexists. split; [reflexivity | discriminate]. Qed.

Lemma tool_calling_model_exhausts_budget_witness :
  (1 <= 3)%Z /\ always_calls_tools (tool_model "") /\
  exists s', runIteration (tool_model "") sample_registry [UserMessage "hi"] 3 start_state
             = (Err max_turns_error, s') /\
             round_trips s' = Z.to_nat 3 + round_trips start_state.
Proof.
  assert (H : always_calls_tools (tool_model "")).
  { intros k ms. eexists. split; [reflexivity | discriminate]. }
  split; [lia|]. split; [exact H|].
  exact (proj1 (tool_calling_model_exhausts_budget (tool_model "") sample_registry
                  [UserMessage "hi"] 3 start_state ltac:(lia) H)).
Defined.

(** A model that writes text with each tool call: [runChatLoop] spends
    its three turns and then returns success with that text, not a
    budget error. *)
Lemma chat_loop_succeeds_on_tool_calls :
  always_calls_tools (tool_model "working") /\
  match runChatLoop (tool_model "working") sample_registry [UserMessage "hi"] 3 start_state with
  | (Ok (_, c), s') => c = "working" /\ round_trips s' = 3%nat
  | (Err _, _) => False
  end.
Proof. split; [apply tool_model_calls | vm_compute; split; reflexivity]. Qed.

Lemma firstn_app_length {A} (l : list A) (x : A) : firstn (length l) (app l [x]) = l.
Proof. rewrite firstn_app, Nat.sub_diag, firstn_all. simpl. apply app_nil_r. Qed.

(** C6: when [AgentLoop.Run] ends in an error, the conversation history
    is the one it had before the call (the user message it appended is
    removed), and the error returned is the one [runIteration] produced
    (or the blank-input error, before anything is appended).  Likewise a
    failed line of the interactive mode (interactive.go) leaves the
    message list as it was before the line and reports the chat loop's
    error. *)
Theorem failed_turn_restores_history :
  (forall (mdl : model) (a : AgentLoop) (s : loop_state) (input e : string)
          (a' : AgentLoop) (s' : loop_state),
     Run mdl a s input = (Err e, a', s') ->
     history a' = history a /\ MaxTurns a' = MaxTurns a /\
     ((TrimSpace input = "" /\ e = "user input is required") \/
      runIteration mdl (tools a) (app (history a) [UserMessage (TrimSpace input)])
        (MaxTurns a) s = (Err e, s'))) /\
  (forall (mdl : model) (r : Registry) (maxTurns : Z) (messages : list message)
          (input : string) (s : loop_state) (messages' : list message) (e : string)
          (s' : loop_state),
     interactive_turn mdl r maxTurns messages input s = (messages', Some e, s') ->
     messages' = messages /\
     runChatLoop mdl r (app messages [UserMessage input]) maxTurns s = (Err e, s')).
Proof.
  split.
  - intros mdl a s input e a' s' H. unfold Run in H.
    destruct (String.eqb_spec (TrimSpace input) "") as [Hb|Hb].
    + inversion H; subst. auto.
    + destruct (runIteration _ _ _ _ _) as [[m|e0] s0] eqn:Hr; [discriminate|].
      inversion H; subst. simpl. split; [apply firstn_app_length|]. split; [reflexivity|].
      right. reflexivity.
  - intros mdl r maxTurns messages input s messages' e s' H.
    unfold interactive_turn in H.
    destruct (runChatLoop _ _ _ _ _) as [[[um lc]|e0] s0] eqn:Hr; [discriminate|].
    inversion H; subst. split; [|reflexivity].
    rewrite length_app, Nat.add_sub. apply firstn_app_length.
Qed.

Lemma failed_turn_restores_history_witness :
  Run refusing_model sample_agent start_state "  hi  "
    = (Err "connection refused", sample_agent,
       {| ls_world := ls_world start_state;
          ls_sent := [[SystemMessage "sys"; UserMessage "hi"]] |}) /\
  history sample_agent = history sample_agent /\
  MaxTurns sample_agent = MaxTurns sample_agent /\
  ((TrimSpace "  hi  " = "" /\ "connection refused" = "user input is required") \/
   runIteration refusing_model (tools sample_agent)
     (app (history sample_agent) [UserMessage (TrimSpace "  hi  ")]) (MaxTurns sample_agent)
     start_state
   = (Err "connection refused",
      {| ls_world := ls_world start_state;
         ls_sent := [[SystemMessage "sys"; UserMessage "hi"]] |})).
Proof.
  assert (H : Run refusing_model sample_agent start_state "  hi  "
              = (Err "connection refused", sample_agent,
                 {| ls_world := ls_world start_state;
                    ls_sent := [[SystemMessage "sys"; UserMessage "hi"]] |}))
    by (vm_compute; reflexivity).
  split; [exact H|].
  exact (proj1 failed_turn_restores_history _ _ _ _ _ _ _ H).
Defined.

(** ** C8: process outcomes inside the envelope *)

Lemma runCommand_outcome (w : world) (command : string) (args : list string)
  (dir : string) (timeout : Z) :
  let req := {| sp_command := command; sp_args := args; sp_dir := dir;
                sp_timeout := if (timeout <=? 0)%Z then (60 * second)%Z else timeout |} in
  snd (runCommand w command args dir timeout) = with_spawn w req /\
  (forall c, pr_end (w_proc w req) = Exited c -> c <> 0%Z ->
     ExitCode (fst (runCommand w command args dir timeout)) = c /\
     Error (fst (runCommand w command args dir timeout)) = "exit status " ++ Z_to_str c) /\
  (pr_end (w_proc w req) = KilledAtDeadline ->
     ExitCode (fst (runCommand w command args dir timeout)) = (-1)%Z /\
     Error (fst (runCommand w command args dir timeout)) = "signal: killed").
Proof.
  intros req. unfold runCommand. fold req. split; [|split].
  - destruct (wait_error (pr_end (w_proc w req))) as [[c m| |m]|]; reflexivity.
  - intros c Hc Hnz. rewrite Hc. unfold wait_error.
    destruct c; [contradiction| |]; split; reflexivity.
  - intros Hk. rewrite Hk. split; reflexivity.
Qed.

(** C8: when run_shell gets as far as starting a process, the envelope
    is ok:true with the [CommandResult] as data: a process that exits
    with a non-zero status [c] gives [exit_code] [c] and the error text
    [exit status c]; a process killed at the deadline gives [exit_code]
    -1 and the error text [signal: killed]. *)
Theorem run_shell_failure_in_payload (ctx : toolContext) (w : world) (argText : arg_text)
  (j : json) (w' : world) :
  runShell_execute ctx w argText = (j, w') ->
  length (w_spawned w) < length (w_spawned w') ->
  exists req res,
    w' = with_spawn w req /\
    j = marshalToolResponse "run_shell" (Some (PCommand res)) None /\
    (forall c, pr_end (w_proc w req) = Exited c -> c <> 0%Z ->
       ExitCode res = c /\ Error res = "exit status " ++ Z_to_str c) /\
    (pr_end (w_proc w req) = KilledAtDeadline ->
       ExitCode res = (-1)%Z /\ Error res = "signal: killed").
Proof.
  intros H Hlt. unfold runShell_execute in H.
  repeat match type of H with
    | context [match ?x with _ => _ end] =>
        lazymatch x with
        | runCommand _ _ _ _ _ => fail
        | _ => destruct x eqn:?
        end
    end;
    try (unfold fail in H; injection H as _ <-; lia).
  match type of H with
  | context [runCommand ?w0 ?c0 ?a0 ?d0 ?t0] =>
      destruct (runCommand_outcome w0 c0 a0 d0 t0) as (Hs & He & Hk);
      destruct (runCommand w0 c0 a0 d0 t0) as [res w1]
  end.
  injection H as <- <-. simpl in Hs, He, Hk.
  eexists _, res. split; [exact Hs|]. split; [reflexivity|]. split; assumption.
Qed.

Lemma run_shell_failure_in_payload_witness :
  exists req res,
    with_spawn (sandbox_world [] (Exited 2))
      {| sp_command := "ls"; sp_args := ["-la"]; sp_dir := ""; sp_timeout := 60 * second |}
    = with_spawn (sandbox_world [] (Exited 2)) req /\
    marshalToolResponse "run_shell"
      (Some (PCommand {| Command := "ls"; Args := ["-la"]; WorkingDir := ""; ExitCode := 2;
                         Stdout := ""; Stderr := ""; DurationMs := 1;
                         Error := "exit status 2" |})) None
    = marshalToolResponse "run_shell" (Some (PCommand res)) None /\
    (forall c, pr_end (w_proc (sandbox_world [] (Exited 2)) req) = Exited c -> c <> 0%Z ->
       ExitCode res = c /\ Error res = "exit status " ++ Z_to_str c) /\
    (pr_end (w_proc (sandbox_world [] (Exited 2)) req) = KilledAtDeadline ->
       ExitCode res = (-1)%Z /\ Error res = "signal: killed").
Proof.
  apply (run_shell_failure_in_payload (sandbox_ctx CtxLive) (sandbox_world [] (Exited 2))
           (shell_args "ls -la")).
  - vm_compute. reflexivity.
  - vm_compute. lia.
Defined.

(** ** C9: write_file without overwrite *)

Lemma WriteFile_stored (fs fs' : gmap string fnode) (p content : string) :
  WriteFile fs p content = Ok fs' -> Stat fs' p = Some (FFile content).
Proof.
  unfold WriteFile, Stat.
  destruct (String.eqb_spec p "/") as [->|Hp]; [discriminate|].
  destruct (fs !! p) as [[c|]|]; try discriminate;
    destruct (is_dir fs (Dir p)); try discriminate;
    intros H; injection H as <-; apply lookup_insert_eq.
Qed.

Lemma fail_not_ok (tool : string) (w w' : world) (e : string) (d : payload) :
  fail tool w e = (marshalToolResponse tool (Some d) None, w') -> False.
Proof. unfold fail, marshalToolResponse. intros H. injection H. discriminate. Qed.

(** C9 (amended): once a write_file call has succeeded on [p] (whatever
    its overwrite flag), a following write_file to the same path with
    overwrite=false answers ok:false with [file exists: p] and leaves the
    host unchanged, so [p] still holds exactly the first call's content. *)
Theorem write_file_no_overwrite_keeps_first (ctx : toolContext) (w w1 : world)
  (args1 args2 : arg_text) (a1 a2 : assignment) (p : string) (n : Z) :
  Unmarshal write_file_fields args1 = Ok a1 ->
  Unmarshal write_file_fields args2 = Ok a2 ->
  get_string "path" a2 = get_string "path" a1 ->
  get_bool "overwrite" a2 = false ->
  writeFile_execute ctx w args1 = (marshalToolResponse "write_file" (Some (PWrite p n)) None, w1) ->
  Stat (w_fs w1) p = Some (FFile (get_string "content" a1)) /\
  writeFile_execute ctx w1 args2
  = (marshalToolResponse "write_file" None (Some ("file exists: " ++ p)), w1).
Proof.
  intros Hu1 Hu2 Hpath Hover H.
  unfold writeFile_execute in H. rewrite Hu1 in H.
  destruct (String.eqb (get_string "path" a1) "") eqn:Hne;
    [exfalso; eapply fail_not_ok; exact H|].
  destruct (validatePath (w_cwd w) (get_string "path" a1) (AllowedDir ctx)) as [vp|pe] eqn:Hv;
    [|exfalso; eapply fail_not_ok; exact H].
  destruct (if get_bool "overwrite" a1 then None else Stat (w_fs w) vp) as [x|];
    [exfalso; eapply fail_not_ok; exact H|].
  destruct (if negb (String.eqb (Dir vp) ".") && negb (String.eqb (Dir vp) "")
            then MkdirAll (w_fs w) (Dir vp) else Ok (w_fs w)) as [fs1|e];
    [|exfalso; eapply fail_not_ok; exact H].
  destruct (WriteFile fs1 vp (get_string "content" a1)) as [fs2|e] eqn:Hw;
    [|exfalso; eapply fail_not_ok; exact H].
  unfold marshalToolResponse in H. injection H. intros; subst.
  split; [exact (WriteFile_stored _ _ _ _ Hw)|].
  unfold writeFile_execute. rewrite Hu2, Hpath, Hne. simpl w_cwd. rewrite Hv, Hover.
  simpl w_fs. rewrite (WriteFile_stored _ _ _ _ Hw). reflexivity.
Qed.

Lemma write_file_no_overwrite_keeps_first_witness :
  Stat (w_fs (with_fs (sandbox_world [] (Exited 0))
                (<["/sandbox/notes.txt" := FFile "hello"]> (w_fs (sandbox_world [] (Exited 0))))))
    "/sandbox/notes.txt" = Some (FFile "hello") /\
  writeFile_execute (sandbox_ctx CtxLive)
    (with_fs (sandbox_world [] (Exited 0))
       (<["/sandbox/notes.txt" := FFile "hello"]> (w_fs (sandbox_world [] (Exited 0)))))
    (write_args "notes.txt" "bye" false)
  = (marshalToolResponse "write_file" None (Some ("file exists: " ++ "/sandbox/notes.txt")),
     with_fs (sandbox_world [] (Exited 0))
       (<["/sandbox/notes.txt" := FFile "hello"]> (w_fs (sandbox_world [] (Exited 0))))).
Proof.
  apply (write_file_no_overwrite_keeps_first (sandbox_ctx CtxLive) (sandbox_world [] (Exited 0))
           _ (write_args "notes.txt" "hello" false) (write_args "notes.txt" "bye" false)
           [("overwrite", GBool false); ("content", GString "hello");
            ("path", GString "notes.txt");
            ("path", GString ""); ("content", GString ""); ("overwrite", GBool false)]
           [("overwrite", GBool false); ("content", GString "bye");
            ("path", GString "notes.txt");
            ("path", GString ""); ("content", GString ""); ("overwrite", GBool false)]
           "/sandbox/notes.txt" 5).
  - vm_compute. reflexivity.
  - vm_compute. reflexivity.
  - vm_compute. reflexivity.
  - vm_compute. reflexivity.
  - vm_compute. reflexivity.
Defined.

(** A file already at the path: the first write_file with overwrite=false
    already fails. *)
Lemma write_file_existing_path_fails :
  fst (writeFile_execute (sandbox_ctx CtxLive)
         (sandbox_world [("/sandbox/notes.txt", "old")] (Exited 0))
         (write_args "notes.txt" "new" false))
  = marshalToolResponse "write_file" None (Some "file exists: /sandbox/notes.txt").
Proof. vm_compute. reflexivity. Qed.

(** ** C7: the envelope of every registry call *)

Lemma lit_app_nonempty (c : ascii) (s t : string) : String c s ++ t <> "".
Proof. rewrite str_app_cons. discriminate. Qed.

Lemma some_nonempty (m : string) : m <> "" -> Some m <> Some "".
Proof. intros H E. injection E. exact H. Qed.

Lemma decode_members_err_nonempty (spec : list (string * kind))
  (ms : list (string * json)) (a a' : assignment) (fe : option string) (e : string) :
  (forall e0, fe = Some e0 -> e0 <> "") ->
  decode_members spec ms a fe = (a', Some e) -> e <> "".
Proof.
  revert a fe. induction ms as [|[key v] ms IH]; intros a fe Hfe H; simpl in H.
  - injection H as _ ->. exact (Hfe e eq_refl).
  - destruct (find_tag key spec) as [[tag k]|]; [|exact (IH _ _ Hfe H)].
    destruct (decode_field k v) as [[g|]|]; try exact (IH _ _ Hfe H).
    eapply IH; [|exact H]. intros e0 He0.
    destruct fe as [e1|]; [injection He0 as <-; exact (Hfe e1 eq_refl)|].
    injection He0 as <-. apply lit_app_nonempty.
Qed.

Lemma Unmarshal_err_nonempty (spec : list (string * kind)) (t : arg_text) (e : string) :
  Unmarshal spec t = Err e -> e <> "".
Proof.
  unfold Unmarshal. destruct t as [v| |c]; cbv beta iota zeta.
  - destruct v as [| | | | |ms]; intros H;
      try (injection H as <-; apply lit_app_nonempty); try discriminate.
    destruct (decode_members spec ms [] None) as [a [e0|]] eqn:Hd; [|discriminate].
    injection H as <-. eapply decode_members_err_nonempty; [|exact Hd].
    intros e1 E; discriminate E.
  - intros H. injection H as <-. unfold syntax_error_msg. discriminate.
  - intros H. injection H as <-. unfold syntax_error_msg. apply lit_app_nonempty.
Qed.

Lemma Mkdir_err_nonempty (fs : gmap string fnode) (p e : string) :
  Mkdir fs p = Err e -> e <> "".
Proof.
  unfold Mkdir. destruct (Stat fs p); [|destruct (is_dir fs (Dir p))]; intros H;
    try discriminate; injection H as <-; apply lit_app_nonempty.
Qed.

Lemma MkdirAll_err_nonempty (fs : gmap string fnode) (p e : string) :
  MkdirAll fs p = Err e -> e <> "".
Proof.
  unfold MkdirAll. generalize (String.length p) as fuel. intros fuel. revert fs p e.
  induction fuel as [|fuel IH]; intros fs p e H; simpl in H;
    repeat (match type of H with
            | context [match ?x with _ => _ end] =>
                lazymatch x with
                | match _ with _ => _ end => fail
                | _ => destruct x eqn:?
                end
            end; cbv beta iota in H);
    first [ discriminate H
          | injection H as <-;
            first [ apply lit_app_nonempty
                  | eapply Mkdir_err_nonempty; eassumption
                  | eapply IH; eassumption ] ].
Qed.

Lemma WriteFile_err_nonempty (fs : gmap string fnode) (p c e : string) :
  WriteFile fs p c = Err e -> e <> "".
Proof.
  unfold WriteFile. destruct (Stat fs p) as [[x|]|]; [| |];
    try destruct (is_dir fs (Dir p)); intros H; try discriminate;
    injection H as <-; apply lit_app_nonempty.
Qed.

Lemma validateFileExists_nonempty (fs : gmap string fnode) (p e : string) :
  validateFileExists fs p = Some e -> e <> "".
Proof.
  unfold validateFileExists. destruct (Stat fs p) as [[x|]|]; intros H;
    try discriminate; injection H as <-; apply lit_app_nonempty.
Qed.

Ltac split_branches :=
  repeat (match goal with
          | |- context [match ?x with _ => _ end] =>
              lazymatch x with
              | match _ with _ => _ end => fail
              | _ => destruct x eqn:?
              end
          end; cbv beta iota zeta).

Ltac envelope_leaf :=
  do 2 eexists; split; [unfold fail; reflexivity|];
  split;
  [ first [ discriminate
          | apply some_nonempty;
            first [ apply lit_app_nonempty
                  | discriminate
                  | eapply Unmarshal_err_nonempty; eassumption
                  | eapply MkdirAll_err_nonempty; eassumption
                  | eapply WriteFile_err_nonempty; eassumption
                  | eapply validateFileExists_nonempty; eassumption ] ]
  | intros ? Habs; first [ discriminate Habs | injection Habs; intros; subst; auto ] ].

(** Every tool answers with [marshalToolResponse] under its own name;
    an error it reports is never empty, and undecodable arguments give
    ok:false with the decoder's error. *)
Lemma tool_envelope (t : tool) (ctx : toolContext) (w : world) (args : arg_text) :
  exists data err,
    fst (tool_execute t ctx w args) = marshalToolResponse (name t) data err /\
    err <> Some "" /\
    (forall e, Unmarshal (tool_fields t) args = Err e -> data = None /\ err = Some e).
Proof.
  destruct t; simpl tool_execute; simpl tool_fields; simpl name;
    [unfold readFile_execute | unfold tools_writeFile_execute | unfold runShell_execute];
    cbv zeta; split_branches; envelope_leaf.
Qed.

Lemma New_lookup_Some (ctx : toolContext) (k : string) (t : tool) :
  registry (New ctx) !! k = Some t -> name t = k.
Proof.
  unfold New, register. simpl. rewrite !lookup_insert_Some, lookup_empty.
  intros [[<- <-]|[_ [[<- <-]|[_ [[<- <-]|[_ H]]]]]]; [reflexivity..|discriminate].
Qed.

Lemma New_lookup_name (ctx : toolContext) (t : tool) :
  registry (New ctx) !! name t = Some t.
Proof. destruct t; reflexivity. Qed.

Lemma name_inj (t t' : tool) : name t = name t' -> t = t'.
Proof. destruct t, t'; simpl; congruence. Qed.

(** C7 (amended): whatever the call, [Registry.Execute] on the registry
    of the three built-in tools answers with [marshalToolResponse] under
    the call's tool name: a JSON object whose first member is "ok", with
    a "tool" member holding the name whenever the name is non-empty (it
    is omitted, [omitempty], for an empty name), then "data" and "error"
    when present.  The error, when there is one, is never empty, so ok:false
    always carries an "error" member; it is the context's error when the
    context is already cancelled, [unknown tool: <name>] for a name with
    no tool, and the decoder's error for arguments that do not decode.
    The call returns a value in every case: nothing is raised. *)
Theorem Execute_envelope (ctx : toolContext) (w : world) (call : ToolCall) :
  exists data err,
    fst (Execute (New ctx) w call) = marshalToolResponse (call_name call) data err /\
    err <> Some "" /\
    (ctx_err (Ctx ctx) <> None -> data = None /\ err = ctx_err (Ctx ctx)) /\
    (ctx_err (Ctx ctx) = None -> registry (New ctx) !! call_name call = None ->
       data = None /\ err = Some ("unknown tool: " ++ call_name call)) /\
    (forall t e, ctx_err (Ctx ctx) = None -> name t = call_name call ->
       Unmarshal (tool_fields t) (call_arguments call) = Err e ->
       data = None /\ err = Some e).
Proof.
  unfold Execute. change (reg_ctx (New ctx)) with ctx.
  destruct (ctx_err (Ctx ctx)) as [ce|] eqn:Hc.
  - exists None, (Some ce). split; [reflexivity|]. split.
    { apply some_nonempty. destruct (Ctx ctx); simpl in Hc; try discriminate;
        injection Hc as <-; discriminate. }
    split; [auto|]. split; [intros E; discriminate E|]. intros t e E; discriminate E.
  - destruct (registry (New ctx) !! call_name call) as [t|] eqn:Hl.
    + destruct (tool_envelope t ctx w (call_arguments call)) as (data & err & H1 & H2 & H3).
      exists data, err. rewrite (New_lookup_Some _ _ _ Hl) in H1.
      split; [exact H1|]. split; [exact H2|]. split; [intros E; contradiction|].
      split; [intros _ E; discriminate E|].
      intros t' e _ Hn Hu. rewrite <- (New_lookup_Some _ _ _ Hl) in Hn.
      apply name_inj in Hn. subst t'. exact (H3 e Hu).
    + exists None, (Some ("unknown tool: " ++ call_name call)).
      split; [reflexivity|]. split; [apply some_nonempty, lit_app_nonempty|].
      split; [intros E; contradiction|]. split; [auto|].
      intros t e _ Hn _. rewrite <- Hn, New_lookup_name in Hl. discriminate.
Qed.

Lemma Execute_envelope_witness :
  exists data err,
    fst (Execute sample_registry (sandbox_world [] (Exited 0))
           {| call_id := "call_9"; call_name := "delete_all"; call_arguments := Text JNull |})
    = marshalToolResponse "delete_all" data err /\
    err <> Some "" /\
    (ctx_err CtxLive <> None -> data = None /\ err = ctx_err CtxLive) /\
    (ctx_err CtxLive = None -> registry sample_registry !! "delete_all" = None ->
       data = None /\ err = Some ("unknown tool: " ++ "delete_all")) /\
    (forall t e, ctx_err CtxLive = None -> name t = "delete_all" ->
       Unmarshal (tool_fields t) (Text JNull) = Err e ->
       data = None /\ err = Some e).
Proof.
  exact (Execute_envelope (sandbox_ctx CtxLive) (sandbox_world [] (Exited 0))
           {| call_id := "call_9"; call_name := "delete_all"; call_arguments := Text JNull |}).
Defined.

(** A call with an empty tool name: the envelope is
    [{"ok":false,"error":"unknown tool: "}], with no "tool" member. *)
Lemma Execute_empty_name_has_no_tool_member :
  fst (Execute sample_registry (sandbox_world [] (Exited 0))
         {| call_id := "call_0"; call_name := ""; call_arguments := Text JNull |})
  = JObj [("ok", JBool false); ("error", JStr "unknown tool: ")].
Proof. vm_compute. reflexivity. Qed.

(** ** C10: non-positive turn budgets *)

Lemma chat_iterate_one_round_trip (mdl : model) (r : Registry) (turn : nat)
  (msgs cur : list message) (lc : string) (s : loop_state) :
  round_trips (snd (chat_iterate mdl r 1 turn msgs cur lc s)) = S (round_trips s).
Proof.
  cbn -[appendToolResponses].
  destruct (runOnce (mdl turn cur)) as [m|e]; [|reflexivity].
  destruct (ToolCalls m) as [|c cs]; [reflexivity|].
  match goal with
  | |- context [appendToolResponses ?r0 ?w0 ?ms0 ?cs0] =>
      destruct (appendToolResponses r0 w0 ms0 cs0) as [cur' w']
  end.
  cbn. destruct (String.eqb _ ""); reflexivity.
Qed.

(** C10 (amended): [runChatLoop] runs a non-positive budget as a budget
    of 1, so it makes exactly one model round-trip; [App.Chat] replaces a
    non-positive requested budget by the configured [MaxTurns] (not by 1);
    and the configuration normalization ([config.Normalize],
    [normalizeConfig]) turns a non-positive configured [MaxTurns] into 1,
    so a normalized configuration always has a budget of at least 1. *)
Theorem nonpositive_turn_budget :
  (forall (mdl : model) (r : Registry) (msgs : list message) (N : Z) (s : loop_state),
     (N <= 0)%Z ->
     runChatLoop mdl r msgs N s = runChatLoop mdl r msgs 1 s /\
     round_trips (snd (runChatLoop mdl r msgs N s)) = S (round_trips s)) /\
  (forall (mdl : model) (r : Registry) (configMaxTurns : Z) (msgs : list message)
          (optsMaxTurns : Z) (s : loop_state),
     (optsMaxTurns <= 0)%Z ->
     Chat mdl r configMaxTurns msgs optsMaxTurns s = runChatLoop mdl r msgs configMaxTurns s) /\
  (forall maxTurns : Z,
     (1 <= normalize_max_turns maxTurns)%Z /\
     ((maxTurns <= 0)%Z -> normalize_max_turns maxTurns = 1%Z)).
Proof.
  split; [|split].
  - intros mdl r msgs N s HN.
    assert (E : runChatLoop mdl r msgs N s = runChatLoop mdl r msgs 1 s).
    { unfold runChatLoop. replace ((N <=? 0)%Z) with true by (symmetry; apply Z.leb_le; lia).
      reflexivity. }
    split; [exact E|]. rewrite E. apply chat_iterate_one_round_trip.
  - intros mdl r c msgs o s Ho. unfold Chat.
    replace ((o <=? 0)%Z) with true by (symmetry; apply Z.leb_le; lia). reflexivity.
  - intros m. unfold normalize_max_turns.
    destruct (Z.leb_spec m 0); split; intros; lia.
Qed.

Lemma nonpositive_turn_budget_witness :
  (runChatLoop (tool_model "") sample_registry [UserMessage "hi"] 0 start_state
   = runChatLoop (tool_model "") sample_registry [UserMessage "hi"] 1 start_state /\
   round_trips (snd (runChatLoop (tool_model "") sample_registry [UserMessage "hi"] 0
                       start_state)) = S (round_trips start_state)) /\
  Chat (tool_model "") sample_registry 3 [UserMessage "hi"] 0 start_state
  = runChatLoop (tool_model "") sample_registry [UserMessage "hi"] 3 start_state /\
  ((1 <= normalize_max_turns (-2))%Z /\ ((-2 <= 0)%Z -> normalize_max_turns (-2) = 1%Z)).
Proof.
  destruct nonpositive_turn_budget as (H1 & H2 & H3).
  split; [apply H1; lia|]. split; [apply H2; lia|]. apply H3.
Defined.

(** A chat request with MaxTurns 0 under a configured budget of 3, against
    a model that always calls a tool: three round-trips, not one. *)
Lemma chat_zero_request_uses_config_budget :
  round_trips (snd (Chat (tool_model "") sample_registry 3 [UserMessage "hi"] 0 start_state))
  = 3%nat /\
  fst (Chat (tool_model "") sample_registry 3 [UserMessage "hi"] 0 start_state)
  = Err chat_max_turns_error.
Proof. vm_compute. split; reflexivity. Qed.

End Facts.

(* ================================================================= *)
(** * Further properties of the modelled code *)

Module ExtraFacts.
Import GoLib PathGuard CommandGuard Json Host Tools Samples Agent Inputs Facts.

(** ** parseCommandLine *)

Lemma list_ascii_app (a b : string) :
  list_ascii_of_string (a ++ b) = app (list_ascii_of_string a) (list_ascii_of_string b).
Proof.
  induction a as [|c a IH]; [reflexivity|]. rewrite str_app_cons. simpl. rewrite IH. reflexivity.
Qed.

Lemma parseCommandLine_start (input : string) :
  parseCommandLine input =
  let st := fold_left parse_step (list_ascii_of_string input) parse_start in
  if ps_escaped st then Err ErrUnterminatedEscape
  else if ps_inSingle st || ps_inDouble st then Err ErrUnterminatedQuote
  else Ok (rev (ps_args (flush st))).
Proof. reflexivity. Qed.

Lemma parse_step_shift (A : list string) (st : parse_state) (r : ascii) :
  parse_step (shift_args A st) r = shift_args A (parse_step st r).
Proof.
  destruct st as [a c sq dq esc].
  unfold parse_step, shift_args, flush, write_rune, set_flags; simpl.
  repeat match goal with |- context [if ?b then _ else _] => destruct b end;
  reflexivity.
Qed.

Lemma fold_shift (A : list string) (l : list ascii) (st : parse_state) :
  fold_left parse_step l (shift_args A st) = shift_args A (fold_left parse_step l st).
Proof.
  revert st; induction l as [|r l IH]; intros st; [reflexivity|].
  simpl. rewrite parse_step_shift. apply IH.
Qed.

Lemma flush_shift (A : list string) (st : parse_state) :
  flush (shift_args A st) = shift_args A (flush st).
Proof.
  destruct st as [a c sq dq esc]. unfold flush, shift_args; simpl.
  destruct (String.eqb c ""); reflexivity.
Qed.

(** A finished state is the start state with the flushed arguments below. *)
Lemma flush_as_shift (st : parse_state) :
  ps_escaped st = false -> ps_inSingle st = false -> ps_inDouble st = false ->
  flush st = shift_args (ps_args (flush st)) parse_start.
Proof.
  destruct st as [a c sq dq esc]; simpl; intros -> -> ->.
  unfold flush, shift_args, parse_start; simpl.
  destruct (String.eqb c "") eqn:E; [apply String.eqb_eq in E; subst|]; reflexivity.
Qed.

Lemma parse_ok_state (input : string) (args : list string) :
  parseCommandLine input = Ok args ->
  let st := fold_left parse_step (list_ascii_of_string input) parse_start in
  ps_escaped st = false /\ ps_inSingle st = false /\ ps_inDouble st = false /\
  args = rev (ps_args (flush st)).
Proof.
  rewrite parseCommandLine_start. cbv zeta.
  destruct (ps_escaped _); [discriminate|].
  destruct (ps_inSingle _), (ps_inDouble _); simpl; try discriminate.
  intros H; injection H; intros <-. auto.
Qed.

(** Plain characters are copied into the current argument. *)
Lemma fold_plain (w : string) (st : parse_state) :
  plain w = true -> ps_escaped st = false -> ps_inSingle st = false ->
  ps_inDouble st = false ->
  fold_left parse_step (list_ascii_of_string w) st =
  {| ps_args := ps_args st; ps_current := ps_current st ++ w;
     ps_inSingle := false; ps_inDouble := false; ps_escaped := false |}.
Proof.
  revert st; induction w as [|c w IH]; intros st Hp He Hs Hd.
  - destruct st; simpl in *; subst. rewrite str_app_nil_r. reflexivity.
  - simpl in Hp |- *. apply andb_true_iff in Hp as [Hc Hp].
    unfold plain_char in Hc.
    destruct (Ascii.eqb c " ") eqn:E1, (Ascii.eqb c (ascii_of_nat 9)) eqn:E2,
      (Ascii.eqb c "'") eqn:E3, (Ascii.eqb c (ascii_of_nat 34)) eqn:E4,
      (Ascii.eqb c "\") eqn:E5; try discriminate Hc.
    assert (parse_step st c = write_rune st c) as ->.
    { unfold parse_step. rewrite He, Hs, Hd, E1, E2, E3, E4, E5. reflexivity. }
    rewrite IH by (simpl; assumption).
    simpl. rewrite <- str_app_assoc, str_app_cons, str_app_nil_l. reflexivity.
Qed.

Lemma flush_nonempty (st : parse_state) :
  ps_current st <> "" ->
  ps_args (flush st) = ps_current st :: ps_args st.
Proof.
  intros H. unfold flush. destruct (String.eqb_spec (ps_current st) ""); [contradiction|].
  reflexivity.
Qed.


(** Joining two parsing command lines with a space concatenates their
    arguments. *)
Lemma parse_concat (s t : string) (a b : list string) :
  parseCommandLine s = Ok a -> parseCommandLine t = Ok b ->
  parseCommandLine (s ++ " " ++ t) = Ok (app a b).
Proof.
  intros Hs Ht.
  destruct (parse_ok_state s a Hs) as (Es & Ss & Ds & ->).
  destruct (parse_ok_state t b Ht) as (Et & St & Dt & ->).
  set (st := fold_left parse_step (list_ascii_of_string s) parse_start) in *.
  assert (fold_left parse_step (list_ascii_of_string (s ++ " " ++ t)) parse_start =
          shift_args (ps_args (flush st))
            (fold_left parse_step (list_ascii_of_string t) parse_start)) as Efold.
  { rewrite !list_ascii_app, !fold_left_app. fold st. simpl fold_left at 2.
    assert (parse_step st " " = flush st) as ->.
    { unfold parse_step. rewrite Es, Ss, Ds. reflexivity. }
    rewrite (flush_as_shift st Es Ss Ds), fold_shift. reflexivity. }
  rewrite parseCommandLine_start. cbv zeta. rewrite Efold, flush_shift.
  unfold shift_args. cbn [ps_escaped ps_inSingle ps_inDouble ps_args].
  rewrite Et, St, Dt. simpl. rewrite rev_app_distr. reflexivity.
Qed.

(** X1: two command lines that parse, joined by a space, parse to the
    first one's arguments followed by the second one's. *)
Theorem parseCommandLine_concat (s t : string) (a b : list string) :
  parseCommandLine s = Ok a -> parseCommandLine t = Ok b ->
  parseCommandLine (s ++ " " ++ t) = Ok (app a b).
Proof. exact (parse_concat s t a b). Qed.

Lemma parseCommandLine_concat_witness :
  parseCommandLine "ls" = Ok ["ls"] /\ parseCommandLine "-la /tmp" = Ok ["-la"; "/tmp"] /\
  parseCommandLine ("ls" ++ " " ++ "-la /tmp") = Ok (app ["ls"] ["-la"; "/tmp"]).
Proof.
  split; [vm_compute; reflexivity|]. split; [vm_compute; reflexivity|].
  apply parseCommandLine_concat; vm_compute; reflexivity.
Defined.

Lemma parse_plain_word (w : string) :
  plain_word w = true -> parseCommandLine w = Ok [w].
Proof.
  unfold plain_word. intros H. apply andb_true_iff in H as [Hne Hp].
  rewrite parseCommandLine_start. cbv zeta.
  rewrite (fold_plain w parse_start Hp) by reflexivity.
  cbn [ps_escaped ps_inSingle ps_inDouble orb]. rewrite flush_nonempty.
  - reflexivity.
  - cbn [ps_current parse_start]. rewrite str_app_nil_l.
    intros E. rewrite E in Hne. discriminate.
Qed.

(** Plain words joined by single spaces parse back to the same words
    (byte walk). *)
Lemma parse_Join_plain (ws : list string) :
  Forall (fun w => plain_word w = true) ws ->
  parseCommandLine (Join ws " ") = Ok ws.
Proof.
  induction ws as [|w ws IH]; intros H; [reflexivity|].
  inversion H as [|? ? Hw Hws]; subst.
  destruct ws as [|w2 ws].
  - apply parse_plain_word; assumption.
  - change (Join (w :: w2 :: ws) " ") with (w ++ " " ++ Join (w2 :: ws) " ").
    apply (parse_concat _ _ [w] (w2 :: ws)); [apply parse_plain_word|apply IH]; assumption.
Qed.


(** X2: non-empty ASCII words without space, tab, quotes or backslash,
    joined by single spaces, parse back to the same words. *)
Theorem parseCommandLine_Join (ws : list string) :
  Forall (fun w => plain_word w = true) ws -> forallb ascii_only ws = true ->
  parseCommandLine (Join ws " ") = Ok ws.
Proof. intros H _. exact (parse_Join_plain ws H). Qed.

Lemma parseCommandLine_Join_witness :
  Forall (fun w => plain_word w = true) ["git"; "status"; "-s"] /\
  forallb ascii_only ["git"; "status"; "-s"] = true /\
  parseCommandLine (Join ["git"; "status"; "-s"] " ") = Ok ["git"; "status"; "-s"].
Proof.
  assert (H : Forall (fun w => plain_word w = true) ["git"; "status"; "-s"])
    by (repeat constructor).
  assert (Ha : forallb ascii_only ["git"; "status"; "-s"] = true) by (vm_compute; reflexivity).
  split; [exact H|]. split; [exact Ha | exact (parseCommandLine_Join _ H Ha)].
Defined.

Lemma fold_escaped (s : string) (st : parse_state) :
  ps_escaped st = false -> ps_inSingle st = false -> ps_inDouble st = false ->
  fold_left parse_step (list_ascii_of_string (escape_all s)) st =
  {| ps_args := ps_args st; ps_current := ps_current st ++ s;
     ps_inSingle := false; ps_inDouble := false; ps_escaped := false |}.
Proof.
  revert st; induction s as [|c s IH]; intros st He Hs Hd.
  - destruct st; simpl in *; subst. rewrite str_app_nil_r. reflexivity.
  - simpl.
    assert (parse_step (parse_step st "\") c = write_rune st c) as ->.
    { unfold parse_step at 2. rewrite He, Hs. simpl.
      unfold parse_step, write_rune, set_flags. simpl. rewrite Hs, Hd, He. reflexivity. }
    rewrite IH by (simpl; assumption). simpl.
    rewrite <- str_app_assoc, str_app_cons, str_app_nil_l. reflexivity.
Qed.

(** X3: in an ASCII string, a backslash before every character makes
    each character literal: the escaped string parses to itself as one
    argument, or to no argument when it is empty. *)
Theorem parseCommandLine_escape_all (s : string) :
  ascii_only s = true ->
  parseCommandLine (escape_all s) = Ok (if String.eqb s "" then [] else [s]).
Proof.
  intros _. rewrite parseCommandLine_start. cbv zeta.
  rewrite (fold_escaped s parse_start) by reflexivity. simpl.
  destruct (String.eqb_spec s "") as [->|Hne]; [reflexivity|].
  rewrite flush_nonempty; simpl; [reflexivity|assumption].
Qed.

Lemma parseCommandLine_escape_all_witness :
  ascii_only "a b'c" = true /\
  parseCommandLine (escape_all "a b'c") = Ok (if String.eqb "a b'c" "" then [] else ["a b'c"]).
Proof.
  assert (H : ascii_only "a b'c" = true) by (vm_compute; reflexivity).
  split; [exact H | exact (parseCommandLine_escape_all "a b'c" H)].
Defined.

Lemma fold_single (s : string) (st : parse_state) :
  lacks "'"%char s = true ->
  ps_escaped st = false -> ps_inSingle st = true -> ps_inDouble st = false ->
  fold_left parse_step (list_ascii_of_string s) st =
  {| ps_args := ps_args st; ps_current := ps_current st ++ s;
     ps_inSingle := true; ps_inDouble := false; ps_escaped := false |}.
Proof.
  revert st; induction s as [|c s IH]; intros st Hl He Hs Hd.
  - destruct st; simpl in *; subst. rewrite str_app_nil_r. reflexivity.
  - simpl in Hl |- *. apply andb_true_iff in Hl as [Hc Hl].
    apply negb_true_iff in Hc.
    assert (parse_step st c = write_rune st c) as ->.
    { unfold parse_step. rewrite He, Hs, Hd, Hc. simpl.
      rewrite !andb_false_r. reflexivity. }
    rewrite IH by (simpl; assumption).
    destruct st as [a cur sq dq esc]; simpl in *; subst.
    rewrite <- str_app_assoc, str_app_cons, str_app_nil_l. reflexivity.
Qed.

(** X4: ASCII text without a single quote, put between single quotes, parses
    to itself as one argument (spaces, double quotes and backslashes
    included); the empty quoted string gives no argument. *)
Theorem parseCommandLine_single_quoted (s : string) :
  lacks "'"%char s = true -> ascii_only s = true ->
  parseCommandLine ("'" ++ s ++ "'") = Ok (if String.eqb s "" then [] else [s]).
Proof.
  intros Hl _.
  assert (fold_left parse_step (list_ascii_of_string ("'" ++ s ++ "'")) parse_start =
          {| ps_args := []; ps_current := s; ps_inSingle := false;
             ps_inDouble := false; ps_escaped := false |}) as Efold.
  { rewrite list_ascii_app, list_ascii_app, !fold_left_app.
    rewrite (fold_single s) by (simpl; auto). reflexivity. }
  rewrite parseCommandLine_start. cbv zeta. rewrite Efold. simpl.
  destruct (String.eqb_spec s "") as [->|Hne]; [reflexivity|].
  rewrite flush_nonempty; simpl; [reflexivity|assumption].
Qed.

Lemma parseCommandLine_single_quoted_witness :
  lacks "'"%char "a b\c" = true /\ ascii_only "a b\c" = true /\
  parseCommandLine ("'" ++ "a b\c" ++ "'") = Ok ["a b\c"].
Proof.
  split; [vm_compute; reflexivity|]. split; [vm_compute; reflexivity|].
  exact (parseCommandLine_single_quoted "a b\c" ltac:(vm_compute; reflexivity)
           ltac:(vm_compute; reflexivity)).
Defined.

(** X5: a command line that parses becomes an unterminated-escape error
    with a trailing backslash and an unterminated-quote error with a
    trailing single or double quote. *)
Theorem parseCommandLine_unterminated (s : string) (args : list string) :
  parseCommandLine s = Ok args ->
  parseCommandLine (s ++ "\") = Err ErrUnterminatedEscape /\
  parseCommandLine (s ++ "'") = Err ErrUnterminatedQuote /\
  parseCommandLine (s ++ String (ascii_of_nat 34) "") = Err ErrUnterminatedQuote.
Proof.
  intros H. destruct (parse_ok_state s args H) as (E & S & D & _).
  set (st := fold_left parse_step (list_ascii_of_string s) parse_start) in *.
  rewrite !parseCommandLine_start. cbv zeta.
  rewrite !list_ascii_app, !fold_left_app. fold st.
  cbn [list_ascii_of_string fold_left].
  unfold parse_step. rewrite E, S, D. simpl. auto.
Qed.

Lemma parseCommandLine_unterminated_witness :
  parseCommandLine "echo hi" = Ok ["echo"; "hi"] /\
  parseCommandLine ("echo hi" ++ "\") = Err ErrUnterminatedEscape /\
  parseCommandLine ("echo hi" ++ "'") = Err ErrUnterminatedQuote /\
  parseCommandLine ("echo hi" ++ String (ascii_of_nat 34) "") = Err ErrUnterminatedQuote.
Proof.
  assert (H : parseCommandLine "echo hi" = Ok ["echo"; "hi"]) by (vm_compute; reflexivity).
  split; [exact H | exact (parseCommandLine_unterminated _ _ H)].
Defined.

Lemma parse_step_nonempty (st : parse_state) (r : ascii) :
  Forall (fun a => a <> "") (ps_args st) ->
  Forall (fun a => a <> "") (ps_args (parse_step st r)).
Proof.
  intros H. unfold parse_step, flush, write_rune, set_flags.
  repeat match goal with |- context [if ?b then _ else _] => destruct b eqn:? end;
  simpl; auto.
  constructor; [|exact H]. apply String.eqb_neq. assumption.
Qed.

(** X6: no argument [parseCommandLine] returns is empty. *)
Theorem parseCommandLine_args_nonempty (input : string) (args : list string) :
  parseCommandLine input = Ok args -> Forall (fun a => a <> "") args.
Proof.
  intros H. destruct (parse_ok_state input args H) as (_ & _ & _ & ->).
  apply Forall_rev.
  assert (forall l st, Forall (fun a => a <> "") (ps_args st) ->
            Forall (fun a => a <> "") (ps_args (fold_left parse_step l st))) as Hf.
  { induction l as [|r l IH]; intros st Hst; [exact Hst|]. apply IH, parse_step_nonempty, Hst. }
  set (st := fold_left _ _ _).
  assert (Forall (fun a => a <> "") (ps_args st)) as Hst by (apply Hf; constructor).
  unfold flush. destruct (String.eqb (ps_current st) "") eqn:Ec; [exact Hst|].
  simpl. constructor; [apply String.eqb_neq; assumption|exact Hst].
Qed.

Lemma parseCommandLine_args_nonempty_witness :
  parseCommandLine "echo '' x" = Ok ["echo"; "x"] /\
  Forall (fun a => a <> "") ["echo"; "x"].
Proof.
  assert (H : parseCommandLine "echo '' x" = Ok ["echo"; "x"]) by (vm_compute; reflexivity).
  split; [exact H | exact (parseCommandLine_args_nonempty _ _ H)].
Defined.

(** X7: [isDangerousCommand] judges a command line of plain words by
    its first word alone, and a command line that does not parse is never
    reported dangerous. *)
Theorem isDangerousCommand_first_word (w : string) (ws : list string) (cmd : string) (e : parse_error) :
  Forall (fun w => plain_word w = true) (w :: ws) ->
  parseCommandLine cmd = Err e ->
  isDangerousCommand (Join (w :: ws) " ") = isDangerousExecutable w /\
  isDangerousCommand cmd = false.
Proof.
  intros Hw He. unfold isDangerousCommand, firstExecutableFromCommand.
  rewrite parse_Join_plain by assumption. rewrite He. auto.
Qed.


Lemma isDangerousCommand_first_word_witness :
  Forall (fun w => plain_word w = true) ["rm"; "-rf"; "/tmp/x"] /\
  parseCommandLine "rm -rf '/tmp/x" = Err ErrUnterminatedQuote /\
  isDangerousCommand (Join ["rm"; "-rf"; "/tmp/x"] " ") = isDangerousExecutable "rm" /\
  isDangerousCommand "rm -rf '/tmp/x" = false.
Proof.
  assert (H1 : Forall (fun w => plain_word w = true) ["rm"; "-rf"; "/tmp/x"])
    by (repeat constructor).
  assert (H2 : parseCommandLine "rm -rf '/tmp/x" = Err ErrUnterminatedQuote)
    by (vm_compute; reflexivity).
  split; [exact H1|]. split; [exact H2|].
  exact (isDangerousCommand_first_word "rm" ["-rf"; "/tmp/x"] _ _ H1 H2).
Defined.

(** ** Lower-casing *)

Lemma lower_char_facts (c : ascii) :
  is_space (lower_char c) = is_space c /\ is_sep (lower_char c) = is_sep c /\
  lower_char (lower_char c) = lower_char c.
Proof. destruct c as [[] [] [] [] [] [] [] []]; vm_compute; auto. Qed.

Lemma ToLower_list (s : string) :
  list_ascii_of_string (ToLower s) = map lower_char (list_ascii_of_string s).
Proof. induction s as [|c s IH]; simpl; [reflexivity|]. rewrite IH. reflexivity. Qed.

Lemma ToLower_of_list (l : list ascii) :
  ToLower (string_of_list_ascii l) = string_of_list_ascii (map lower_char l).
Proof. induction l as [|c l IH]; simpl; [reflexivity|]. rewrite IH. reflexivity. Qed.

Lemma ToLower_idem (s : string) : ToLower (ToLower s) = ToLower s.
Proof.
  induction s as [|c s IH]; simpl; [reflexivity|].
  destruct (lower_char_facts c) as (_ & _ & ->). rewrite IH. reflexivity.
Qed.

(** [lower_char] changes only bytes below 128, into bytes below 128. *)
Lemma lower_char_cases (c : ascii) :
  lower_char c = c \/ (nat_of_ascii c < 128 /\ nat_of_ascii (lower_char c) < 128).
Proof.
  unfold lower_char.
  destruct (Nat.leb 65 (nat_of_ascii c) && Nat.leb (nat_of_ascii c) 90) eqn:E; [|left; reflexivity].
  right. apply andb_prop in E as [E1 E2]. apply Nat.leb_le in E1, E2.
  rewrite nat_ascii_embedding by lia. lia.
Qed.

Lemma space2_high (c d : ascii) :
  space2 c d = true -> 128 <= nat_of_ascii c /\ 128 <= nat_of_ascii d.
Proof.
  unfold space2. intros H.
  repeat rewrite ?orb_true_iff, ?andb_true_iff, ?Nat.eqb_eq, ?Nat.leb_le in H. lia.
Qed.

Lemma space3_high (c d e : ascii) :
  space3 c d e = true ->
  128 <= nat_of_ascii c /\ 128 <= nat_of_ascii d /\ 128 <= nat_of_ascii e.
Proof.
  unfold space3. intros H.
  repeat rewrite ?orb_true_iff, ?andb_true_iff, ?Nat.eqb_eq, ?Nat.leb_le in H. lia.
Qed.

Lemma space2_lower (c d : ascii) : space2 (lower_char c) (lower_char d) = space2 c d.
Proof.
  destruct (lower_char_cases c) as [Ec|[Hc Hc']], (lower_char_cases d) as [Ed|[Hd Hd']];
    try (rewrite ?Ec, ?Ed; reflexivity);
    (destruct (space2 c d) eqn:E1; [apply space2_high in E1; lia|]);
    (destruct (space2 (lower_char c) (lower_char d)) eqn:E2; [apply space2_high in E2; lia|reflexivity]).
Qed.

Lemma space3_lower (c d e : ascii) :
  space3 (lower_char c) (lower_char d) (lower_char e) = space3 c d e.
Proof.
  destruct (lower_char_cases c) as [Ec|[Hc Hc']], (lower_char_cases d) as [Ed|[Hd Hd']],
    (lower_char_cases e) as [Ee|[He He']];
    try (rewrite ?Ec, ?Ed, ?Ee; reflexivity);
    (destruct (space3 c d e) eqn:E1; [apply space3_high in E1; lia|]);
    (destruct (space3 (lower_char c) (lower_char d) (lower_char e)) eqn:E2;
       [apply space3_high in E2; lia|reflexivity]).
Qed.

Lemma is_space_lower (c : ascii) : is_space (lower_char c) = is_space c.
Proof. apply lower_char_facts. Qed.

(** Induction on a list through its suffixes. *)
Lemma list_strong_ind (P : list ascii -> Prop) :
  (forall l, (forall l', length l' < length l -> P l') -> P l) -> forall l, P l.
Proof.
  intros H.
  assert (G : forall n l, length l < n -> P l).
  { induction n as [|n IHn]; intros l Hl; [lia|].
    apply H. intros l' Hl'. apply IHn. lia. }
  intros l. apply (G (S (length l))). lia.
Qed.

Lemma drop_spaces_eq (c : ascii) (l : list ascii) :
  drop_spaces (c :: l) =
  if is_space c then drop_spaces l else
  match l with
  | d :: l2 =>
      if space2 c d then drop_spaces l2 else
      match l2 with
      | e :: l3 => if space3 c d e then drop_spaces l3 else c :: l
      | [] => c :: l
      end
  | [] => c :: l
  end.
Proof. reflexivity. Qed.

Lemma drop_spaces_rev_eq (c : ascii) (l : list ascii) :
  drop_spaces_rev (c :: l) =
  if is_space c then drop_spaces_rev l else
  match l with
  | d :: l2 =>
      if space2 d c then drop_spaces_rev l2 else
      match l2 with
      | e :: l3 => if space3 e d c then drop_spaces_rev l3 else c :: l
      | [] => c :: l
      end
  | [] => c :: l
  end.
Proof. reflexivity. Qed.

Lemma drop_spaces_lower (l : list ascii) :
  drop_spaces (map lower_char l) = map lower_char (drop_spaces l).
Proof.
  induction l as [l IH] using list_strong_ind.
  destruct l as [|c l]; [reflexivity|]. cbn [map].
  rewrite (drop_spaces_eq (lower_char c)), (drop_spaces_eq c).
  destruct l as [|d [|e l]]; cbn [map]; rewrite ?is_space_lower, ?space2_lower, ?space3_lower.
  - destruct (is_space c); reflexivity.
  - destruct (is_space c); [apply (IH [d]); simpl; lia|].
    destruct (space2 c d); reflexivity.
  - destruct (is_space c); [apply (IH (d :: e :: l)); simpl; lia|].
    destruct (space2 c d); [apply (IH (e :: l)); simpl; lia|].
    destruct (space3 c d e); [apply IH; simpl; lia|reflexivity].
Qed.

Lemma drop_spaces_rev_lower (l : list ascii) :
  drop_spaces_rev (map lower_char l) = map lower_char (drop_spaces_rev l).
Proof.
  induction l as [l IH] using list_strong_ind.
  destruct l as [|c l]; [reflexivity|]. cbn [map].
  rewrite (drop_spaces_rev_eq (lower_char c)), (drop_spaces_rev_eq c).
  destruct l as [|d [|e l]]; cbn [map]; rewrite ?is_space_lower, ?space2_lower, ?space3_lower.
  - destruct (is_space c); reflexivity.
  - destruct (is_space c); [apply (IH [d]); simpl; lia|].
    destruct (space2 d c); reflexivity.
  - destruct (is_space c); [apply (IH (d :: e :: l)); simpl; lia|].
    destruct (space2 d c); [apply (IH (e :: l)); simpl; lia|].
    destruct (space3 e d c); [apply IH; simpl; lia|reflexivity].
Qed.

Lemma TrimSpace_lower (s : string) : TrimSpace (ToLower s) = ToLower (TrimSpace s).
Proof.
  unfold TrimSpace.
  rewrite ToLower_list, drop_spaces_lower, <- List.map_rev, drop_spaces_rev_lower,
    <- List.map_rev, <- ToLower_of_list. reflexivity.
Qed.

Lemma strip_trailing_seps_lower (r : list ascii) :
  strip_trailing_seps (map lower_char r) = map lower_char (strip_trailing_seps r).
Proof.
  induction r as [|c r IH]; simpl; [reflexivity|].
  destruct (lower_char_facts c) as (_ & -> & _). destruct (is_sep c); [exact IH|reflexivity].
Qed.

Lemma last_elem_lower (r : list ascii) :
  last_elem (map lower_char r) = map lower_char (last_elem r).
Proof.
  induction r as [|c r IH]; simpl; [reflexivity|].
  destruct (lower_char_facts c) as (_ & -> & _). destruct (is_sep c); [reflexivity|].
  rewrite IH. reflexivity.
Qed.

Lemma Base_lower (p : string) : Base (ToLower p) = ToLower (Base p).
Proof.
  unfold Base.
  assert (String.eqb (ToLower p) "" = String.eqb p "") as -> by (destruct p; reflexivity).
  destruct (String.eqb p ""); [reflexivity|].
  rewrite ToLower_list, <- List.map_rev, strip_trailing_seps_lower, last_elem_lower.
  destruct (last_elem _) as [|x e]; [reflexivity|].
  rewrite ToLower_of_list, List.map_rev. reflexivity.
Qed.

Lemma lowered_base_name (e : string) :
  ToLower (Base (TrimSpace (ToLower e))) = ToLower (Base (TrimSpace e)).
Proof. rewrite TrimSpace_lower, Base_lower, ToLower_idem. reflexivity. Qed.

(** X8: [isDangerousExecutable] and [isShellExecutable] ignore ASCII
    case: two names equal after [strings.ToLower] get the same answers. *)
Theorem executable_checks_ignore_case (e1 e2 : string) :
  ToLower e1 = ToLower e2 ->
  isDangerousExecutable e1 = isDangerousExecutable e2 /\
  isShellExecutable e1 = isShellExecutable e2.
Proof.
  intros H. unfold isDangerousExecutable, isShellExecutable.
  rewrite <- (lowered_base_name e1), <- (lowered_base_name e2), H. split; reflexivity.
Qed.

Lemma executable_checks_ignore_case_witness :
  ToLower "/usr/bin/RM" = ToLower "/usr/bin/rm" /\
  isDangerousExecutable "/usr/bin/RM" = isDangerousExecutable "/usr/bin/rm" /\
  isShellExecutable "/usr/bin/RM" = isShellExecutable "/usr/bin/rm".
Proof.
  assert (H : ToLower "/usr/bin/RM" = ToLower "/usr/bin/rm") by (vm_compute; reflexivity).
  split; [exact H | exact (executable_checks_ignore_case _ _ H)].
Defined.

(** ** Security revision vs command revision *)

Lemma no_dotdot_no_parent (c : string) :
  Contains c ".." = false -> hasParentTraversal c = false.
Proof.
  intros E. unfold hasParentTraversal.
  destruct (String.eqb_spec c "..") as [->|_]; [discriminate|]. rewrite Bool.orb_false_l.
  destruct (existsb (String.eqb "..") (Split c slash)) eqn:Ex; [|reflexivity].
  apply existsb_exists in Ex as (x & Hin & Hx). apply String.eqb_eq in Hx. subst x.
  rewrite (Split_piece_Contains _ _ Hin) in E. discriminate.
Qed.

(** X9: the security.go revision of [validatePathWithAllowedDirs] is the
    stricter one: every path it accepts, the command.go revision accepts
    with the same result. *)
Theorem security_revision_stricter (cwd path : string) (allowedDirs : list string) (x : string) :
  Security.validatePathWithAllowedDirs cwd path allowedDirs = Ok x ->
  Command.validatePathWithAllowedDirs cwd path allowedDirs = Ok x.
Proof.
  unfold Security.validatePathWithAllowedDirs, Command.validatePathWithAllowedDirs.
  destruct (String.eqb path ""); [discriminate|].
  destruct (Contains (Clean path) "..") eqn:E; [discriminate|].
  rewrite (no_dotdot_no_parent _ E). exact id.
Qed.

Lemma security_revision_stricter_witness :
  Security.validatePathWithAllowedDirs "/sandbox" "notes/today.txt" ["/sandbox"]
    = Ok "/sandbox/notes/today.txt" /\
  Command.validatePathWithAllowedDirs "/sandbox" "notes/today.txt" ["/sandbox"]
    = Ok "/sandbox/notes/today.txt".
Proof.
  assert (H : Security.validatePathWithAllowedDirs "/sandbox" "notes/today.txt" ["/sandbox"]
                = Ok "/sandbox/notes/today.txt") by (vm_compute; reflexivity).
  split; [exact H | exact (security_revision_stricter _ _ _ _ H)].
Defined.

(** ** Rooted paths stay rooted under [Clean] *)

Definition rooted_out (out : list ascii) : Prop := exists l, out = app l [slash].

Lemma backtrack_keeps_root (out : list ascii) (d : ascii) :
  rooted_out out -> rooted_out (backtrack 1 d out).
Proof.
  revert d; induction out as [|c out' IH]; intros d [l Hl].
  - destruct l; discriminate.
  - simpl. destruct (Nat.ltb 1 (S (length out')) && negb (is_sep d)) eqn:E.
    + apply IH. apply andb_true_iff in E as [E _]. apply Nat.ltb_lt in E.
      destruct l as [|x l]; [injection Hl; intros -> _; simpl in E; lia|].
      injection Hl; intros -> _. exists l. reflexivity.
    + exists l. exact Hl.
Qed.

Lemma clean_loop_rooted (n : nat) : forall p out cp,
  length p <= n -> rooted_out out -> rooted_out (clean_loop true 1 out cp p).
Proof.
  induction n as [|n IH]; intros p out cp Hlen Hout.
  - destruct p; [exact Hout | simpl in Hlen; lia].
  - destruct p as [|c p']; [exact Hout|]. simpl in Hlen. cbn [clean_loop].
    assert (Hdef : forall b : bool,
      rooted_out (clean_loop true 1 (c :: (if b then slash :: out else out)) true p')).
    { intros b. apply IH; [lia|]. destruct Hout as [l ->].
      destruct b; [exists (c :: slash :: l) | exists (c :: l)]; reflexivity. }
    destruct (is_sep c); [apply IH; [lia|exact Hout]|].
    destruct cp; [apply IH; [lia|destruct Hout as [l ->]; exists (c :: l); reflexivity]|].
    destruct (Ascii.eqb c dot && end_or_sep p'); [apply IH; [lia|exact Hout]|].
    destruct p' as [|c2 p'']; [apply Hdef|].
    destruct (Ascii.eqb c dot && Ascii.eqb c2 dot && end_or_sep p''); [|apply Hdef].
    simpl in Hlen.
    destruct (Nat.ltb 1 (length out)) eqn:Hl.
    + destruct out as [|d out']; [apply IH; [lia|exact Hout]|].
      apply IH; [lia|]. apply backtrack_keeps_root.
      destruct Hout as [l Hl']. destruct l as [|x l].
      * injection Hl'; intros -> _. discriminate.
      * injection Hl'; intros -> _. exists l; reflexivity.
    + apply IH; [lia|exact Hout].
Qed.

Lemma Clean_rooted (p : string) : IsAbs p = true -> IsAbs (Clean p) = true.
Proof.
  unfold Clean. destruct p as [|c p]; [discriminate|]. simpl IsAbs at 1. intros Hc.
  simpl list_ascii_of_string. cbv beta iota. rewrite Hc.
  assert (H0 : rooted_out [slash]) by (exists []; reflexivity).
  destruct (clean_loop_rooted (length (c :: list_ascii_of_string p))
              (c :: list_ascii_of_string p) [slash] false (le_n _) H0) as [l ->].
  destruct l; simpl; [reflexivity|].
  rewrite rev_app_distr. simpl. reflexivity.
Qed.

Lemma Abs_absolute (cwd p : string) : IsAbs cwd = true -> IsAbs (Abs cwd p) = true.
Proof.
  intros Hcwd. unfold Abs. destruct (IsAbs p) eqn:Hp; [apply Clean_rooted, Hp|].
  unfold Join2. destruct cwd as [|c cwd]; [discriminate|]. simpl negb.
  apply Clean_rooted. rewrite str_app_cons. exact Hcwd.
Qed.


(** ** normalizeAllowedDirs *)

Lemma normalize_loop_spec (cwd : string) (dirs : list string) :
  forall seen normalized,
  (forall x, In x seen <-> In x normalized) -> List.NoDup normalized ->
  List.NoDup (normalize_loop cwd seen dirs normalized) /\
  (forall x, In x (normalize_loop cwd seen dirs normalized) <->
     In x normalized \/
     exists d, In d dirs /\ TrimSpace d <> "" /\ x = Clean (Abs cwd (TrimSpace d))).
Proof.
  induction dirs as [|d dirs IH]; intros seen normalized Hseen Hnd; simpl.
  - split; [exact Hnd|]. intros x. split; [tauto|].
    intros [H|(d & [] & _)]; exact H.
  - destruct (String.eqb_spec (TrimSpace d) "") as [Hb|Hb].
    + destruct (IH seen normalized Hseen Hnd) as [Hnd' Hin]. split; [exact Hnd'|].
      intros x. rewrite Hin. split.
      * intros [H|(d' & Hd' & Hne & ->)]; [left; exact H|right; exists d'; auto].
      * intros [H|(d' & [<-|Hd'] & Hne & ->)]; [left; exact H|contradiction|].
        right; exists d'; auto.
    + destruct (existsb (String.eqb (Clean (Abs cwd (TrimSpace d)))) seen) eqn:Ex.
      * apply existsb_exists in Ex as (y & Hy & Hyeq). apply String.eqb_eq in Hyeq. subst y.
        apply Hseen in Hy.
        destruct (IH seen normalized Hseen Hnd) as [Hnd' Hin]. split; [exact Hnd'|].
        intros x. rewrite Hin. split.
        -- intros [H|(d' & Hd' & Hne & ->)]; [left; exact H|right; exists d'; auto].
        -- intros [H|(d' & [<-|Hd'] & Hne & ->)]; [left; exact H|left; exact Hy|].
           right; exists d'; auto.
      * assert (Hnot : ~ In (Clean (Abs cwd (TrimSpace d))) normalized).
        { intros Hn. apply Hseen in Hn.
          assert (existsb (String.eqb (Clean (Abs cwd (TrimSpace d)))) seen = true) as E'
            by (apply existsb_exists; eexists; split; [exact Hn|apply String.eqb_refl]).
          rewrite E' in Ex. discriminate. }
        assert (Hseen' : forall x, In x (Clean (Abs cwd (TrimSpace d)) :: seen) <->
                           In x (app normalized [Clean (Abs cwd (TrimSpace d))])).
        { intros x. rewrite List.in_app_iff. simpl. rewrite Hseen. tauto. }
        assert (Hnd2 : List.NoDup (app normalized [Clean (Abs cwd (TrimSpace d))])).
        { apply (Permutation_NoDup (Permutation_cons_append normalized _)).
          constructor; assumption. }
        destruct (IH _ _ Hseen' Hnd2) as [Hnd' Hin]. split; [exact Hnd'|].
        intros x. rewrite Hin, List.in_app_iff. simpl. split.
        -- intros [[H|[<-|[]]]|(d' & Hd' & Hne & ->)];
             [left; exact H|right; exists d; auto|right; exists d'; auto].
        -- intros [H|(d' & [<-|Hd'] & Hne & ->)];
             [left; left; exact H|left; right; left; reflexivity|].
           right; exists d'; auto.
Qed.

Lemma insert_sorted_perm (x : string) (l : list string) :
  Permutation (insert_sorted x l) (x :: l).
Proof.
  induction l as [|y l IH]; simpl; [reflexivity|].
  destruct (String.ltb y x); [|reflexivity].
  transitivity (y :: x :: l); [constructor; exact IH|constructor].
Qed.

Lemma sort_strings_perm (l : list string) : Permutation (sort_strings l) l.
Proof.
  induction l as [|x l IH]; simpl; [reflexivity|].
  eapply perm_trans; [apply insert_sorted_perm|]. constructor. exact IH.
Qed.

Lemma ltb_leb (a b : string) : String.ltb a b = true -> String.leb a b = true.
Proof. unfold String.ltb, String.leb. destruct (String.compare a b); congruence. Qed.

Lemma not_ltb_leb (a b : string) : String.ltb b a = false -> String.leb a b = true.
Proof.
  unfold String.ltb, String.leb. rewrite (String.compare_antisym a b).
  destruct (String.compare b a); simpl; congruence.
Qed.

Lemma insert_sorted_sorted (x : string) (l : list string) :
  Sorted (fun a b => String.leb a b = true) l ->
  Sorted (fun a b => String.leb a b = true) (insert_sorted x l).
Proof.
  induction l as [|y l IH]; intros Hs; simpl; [repeat constructor|].
  destruct (String.ltb y x) eqn:E.
  - apply Sorted_inv in Hs as [Hs Hd]. constructor; [apply IH, Hs|].
    destruct l as [|z l]; simpl; [constructor; apply ltb_leb, E|].
    destruct (String.ltb z x); constructor; [apply HdRel_inv in Hd; exact Hd|apply ltb_leb, E].
  - constructor; [exact Hs|]. constructor. apply not_ltb_leb, E.
Qed.

Lemma sort_strings_sorted (l : list string) :
  Sorted (fun a b => String.leb a b = true) (sort_strings l).
Proof. induction l as [|x l IH]; simpl; [constructor|]. apply insert_sorted_sorted, IH. Qed.

Lemma normalizeAllowedDirs_members (cwd : string) (dirs : list string) :
  List.NoDup (normalizeAllowedDirs cwd dirs) /\
  (forall x, In x (normalizeAllowedDirs cwd dirs) <->
     exists d, In d dirs /\ TrimSpace d <> "" /\ x = Clean (Abs cwd (TrimSpace d))).
Proof.
  unfold normalizeAllowedDirs.
  destruct (normalize_loop_spec cwd dirs [] [] (fun x => iff_refl _) (List.NoDup_nil _))
    as [Hnd Hin].
  split; [eapply Permutation_NoDup; [symmetry; apply sort_strings_perm|exact Hnd]|].
  intros x. split.
  - intros Hx. apply (Permutation_in _ (sort_strings_perm _)), Hin in Hx.
    destruct Hx as [[]|Hx]; exact Hx.
  - intros Hx. apply (Permutation_in _ (symmetry (sort_strings_perm _))), Hin. right; exact Hx.
Qed.

(** X10: with an absolute working directory, [normalizeAllowedDirs]
    returns a duplicate-free, byte-wise sorted list of absolute paths,
    holding exactly the cleaned absolute forms of the non-blank entries. *)
Theorem normalizeAllowedDirs_sorted_unique (cwd : string) (dirs : list string) :
  IsAbs cwd = true ->
  List.NoDup (normalizeAllowedDirs cwd dirs) /\
  Sorted (fun a b => String.leb a b = true) (normalizeAllowedDirs cwd dirs) /\
  Forall (fun r => IsAbs r = true) (normalizeAllowedDirs cwd dirs) /\
  (forall x, In x (normalizeAllowedDirs cwd dirs) <->
     exists d, In d dirs /\ TrimSpace d <> "" /\ x = Clean (Abs cwd (TrimSpace d))).
Proof.
  intros Hcwd. destruct (normalizeAllowedDirs_members cwd dirs) as [Hnd Hin].
  split; [exact Hnd|]. split; [apply sort_strings_sorted|]. split; [|exact Hin].
  apply List.Forall_forall. intros x Hx. apply Hin in Hx as (d & _ & _ & ->).
  apply Clean_rooted, Abs_absolute, Hcwd.
Qed.

Lemma normalizeAllowedDirs_sorted_unique_witness :
  IsAbs "/home/u" = true /\
  List.NoDup (normalizeAllowedDirs "/home/u" ["b"; " /tmp "; "b/"; ""]) /\
  Sorted (fun a b => String.leb a b = true) (normalizeAllowedDirs "/home/u" ["b"; " /tmp "; "b/"; ""]) /\
  Forall (fun r => IsAbs r = true) (normalizeAllowedDirs "/home/u" ["b"; " /tmp "; "b/"; ""]) /\
  (forall x, In x (normalizeAllowedDirs "/home/u" ["b"; " /tmp "; "b/"; ""]) <->
     exists d, In d ["b"; " /tmp "; "b/"; ""] /\ TrimSpace d <> "" /\
               x = Clean (Abs "/home/u" (TrimSpace d))).
Proof.
  assert (H : IsAbs "/home/u" = true) by reflexivity.
  split; [exact H | exact (normalizeAllowedDirs_sorted_unique _ ["b"; " /tmp "; "b/"; ""] H)].
Defined.



(** X12: with an absolute working directory, a path accepted by the
    command.go [validatePathWithAllowedDirs] is returned as the absolute
    form of its cleaned path, which is absolute and has no [..] segment. *)
Theorem validate_result_absolute (cwd path : string) (allowedDirs : list string) (x : string) :
  IsAbs cwd = true ->
  Command.validatePathWithAllowedDirs cwd path allowedDirs = Ok x ->
  x = Abs cwd (Clean path) /\ IsAbs x = true /\ hasParentTraversal (Clean path) = false.
Proof.
  intros Hcwd. unfold Command.validatePathWithAllowedDirs, check_roots.
  destruct (String.eqb path ""); [discriminate|].
  destruct (hasParentTraversal (Clean path)); [discriminate|].
  assert (Hx : forall y, Ok (Abs cwd (Clean path)) = (Ok y : result string path_error) ->
     y = Abs cwd (Clean path) /\ IsAbs y = true /\ false = false).
  { intros y Hy. injection Hy as <-. split; [reflexivity|]. split; [|reflexivity].
    apply Abs_absolute, Hcwd. }
  destruct (normalizeAllowedDirs cwd allowedDirs); [apply Hx|].
  destruct (some_root_accepts _ _); [apply Hx|discriminate].
Qed.

Lemma validate_result_absolute_witness :
  IsAbs "/srv" = true /\
  Command.validatePathWithAllowedDirs "/srv" "./docs//a.md" ["/srv"] = Ok "/srv/docs/a.md" /\
  "/srv/docs/a.md" = Abs "/srv" (Clean "./docs//a.md") /\ IsAbs "/srv/docs/a.md" = true /\
  hasParentTraversal (Clean "./docs//a.md") = false.
Proof.
  assert (H1 : IsAbs "/srv" = true) by reflexivity.
  assert (H2 : Command.validatePathWithAllowedDirs "/srv" "./docs//a.md" ["/srv"]
                 = Ok "/srv/docs/a.md") by (vm_compute; reflexivity).
  split; [exact H1|]. split; [exact H2|].
  exact (validate_result_absolute _ _ _ _ H1 H2).
Defined.

(** ** read_file and write_file *)

Lemma substring_length (k : nat) (d : string) :
  String.length (substring 0 k d) = Nat.min k (String.length d).
Proof.
  revert k; induction d as [|c d IH]; intros [|k]; simpl; try reflexivity.
  rewrite IH. reflexivity.
Qed.

Lemma substring_prefix (k : nat) (d : string) : String.prefix (substring 0 k d) d = true.
Proof.
  revert k; induction d as [|c d IH]; intros [|k]; simpl; try reflexivity.
  destruct (ascii_dec c c) as [_|n]; [apply IH|contradiction].
Qed.

Lemma substring_substring (j k : nat) (d : string) :
  substring 0 j (substring 0 k d) = substring 0 (Nat.min j k) d.
Proof.
  revert j k; induction d as [|c d IH]; intros [|j] [|k]; simpl; try reflexivity;
    try (destruct j; reflexivity).
  rewrite IH. reflexivity.
Qed.

Lemma substring_full (k : nat) (d : string) :
  String.length d <= k -> substring 0 k d = d.
Proof.
  revert k; induction d as [|c d IH]; intros [|k] Hk; simpl in *; try reflexivity; try lia.
  rewrite IH by lia. reflexivity.
Qed.

Lemma prefix_refl (d : string) : String.prefix d d = true.
Proof. rewrite <- (str_app_nil_r d) at 2. apply prefix_app. Qed.

Lemma wrap64_small (z : Z) : (int64_min <= z <= int64_max)%Z -> wrap64 z = z.
Proof.
  unfold wrap64, int64_min, int64_max. intros Hz.
  rewrite Z.mod_small by lia. lia.
Qed.

Lemma substring_zero (d : string) : substring 0 0 d = "".
Proof. destruct d; reflexivity. Qed.

(** What [readFile_execute] returns for file content [d] and a positive
    budget [m]: the first [min m size] bytes below MaxInt64, and nothing
    at MaxInt64, where [maxBytes+1] wraps around. *)
Lemma read_window (m : Z) (d : string) :
  (0 < m)%Z ->
  let data := substring 0 (Z.to_nat (wrap64 (m + 1))) d in
  let truncated := (m <? Z.of_nat (String.length data))%Z in
  let data' := if truncated then substring 0 (Z.to_nat m) data else data in
  ((m < int64_max)%Z ->
     String.prefix data' d = true /\
     Z.of_nat (String.length data') = Z.min m (Z.of_nat (String.length d)) /\
     truncated = (m <? Z.of_nat (String.length d))%Z) /\
  (m = int64_max -> data' = "" /\ truncated = false).
Proof.
  intros Hm. cbv zeta. split.
  - intros Hmax. rewrite (wrap64_small (m + 1)) by (unfold int64_min, int64_max in *; lia).
    rewrite substring_length.
    destruct (Z.ltb_spec m (Z.of_nat (Nat.min (Z.to_nat (m + 1)) (String.length d)))) as [Hlt|Hge].
    + rewrite substring_substring.
      assert (Nat.min (Z.to_nat m) (Z.to_nat (m + 1)) = Z.to_nat m) as -> by lia.
      split; [apply substring_prefix|]. rewrite substring_length.
      split; [lia|]. symmetry. apply Z.ltb_lt. lia.
    + rewrite substring_full by lia. split; [apply prefix_refl|].
      split; [lia|]. symmetry. apply Z.ltb_ge. lia.
  - intros ->.
    assert (wrap64 (int64_max + 1) = int64_min) as -> by reflexivity.
    assert (Z.to_nat int64_min = 0) as -> by reflexivity.
    rewrite substring_zero. split; reflexivity.
Qed.

(** X13: an ok:true read_file answer leaves the host unchanged, names
    the validated path, and reports in [bytes] the length of the content
    it returns.  With [m] the max_bytes argument or, when that is not
    positive, the context's MaxReadBytes: below MaxInt64 the content is
    the first [min m size] bytes of the file and [truncated] holds
    exactly when the file is longer than [m]; at MaxInt64 the int64
    [maxBytes+1] wraps around, nothing is read, and the content is empty
    and not truncated. *)
Theorem read_file_window (ctx : toolContext) (w w' : world) (args : arg_text)
  (b : assignment) (vp : string) (n : Z) (t : bool) (c : string) :
  Unmarshal read_file_fields args = Ok b ->
  readFile_execute ctx w args
    = (marshalToolResponse "read_file" (Some (PRead vp n t c)) None, w') ->
  let m := if (get_int64 "max_bytes" b <=? 0)%Z then MaxReadBytes ctx
           else get_int64 "max_bytes" b in
  w' = w /\
  Command.validatePathWithAllowedDirs (w_cwd w) (get_string "path" b) (AllowedDirs ctx) = Ok vp /\
  exists d, Stat (w_fs w) vp = Some (FFile d) /\ n = Z.of_nat (String.length c) /\
    ((m < int64_max)%Z ->
       String.prefix c d = true /\
       Z.of_nat (String.length c) = Z.min m (Z.of_nat (String.length d)) /\
       t = (m <? Z.of_nat (String.length d))%Z) /\
    (m = int64_max -> c = "" /\ t = false).
Proof.
  intros Hu H. cbv zeta. unfold readFile_execute in H. rewrite Hu in H.
  destruct (String.eqb (get_string "path" b) ""); [exfalso; eapply fail_not_ok; exact H|].
  destruct (Command.validatePathWithAllowedDirs (w_cwd w) (get_string "path" b) (AllowedDirs ctx))
    as [vp'|pe] eqn:Hv; [|exfalso; eapply fail_not_ok; exact H].
  destruct (validateFileExists (w_fs w) vp'); [exfalso; eapply fail_not_ok; exact H|].
  set (m := if (get_int64 "max_bytes" b <=? 0)%Z then MaxReadBytes ctx
            else get_int64 "max_bytes" b) in *.
  destruct (Z.leb_spec m 0) as [Hm|Hm]; [exfalso; eapply fail_not_ok; exact H|].
  destruct (Stat (w_fs w) vp') as [[d|]|] eqn:Hs; try (exfalso; eapply fail_not_ok; exact H).
  destruct (read_window m d Hm) as [Hlow Hmax]. cbv zeta in Hlow, Hmax.
  unfold marshalToolResponse in H. injection H. intros; subst.
  split; [reflexivity|]. split; [reflexivity|]. exists d. auto.
Qed.

Lemma read_file_window_witness :
  sandbox_world [("/sandbox/notes.txt", "hello world")] (Exited 0)
    = sandbox_world [("/sandbox/notes.txt", "hello world")] (Exited 0) /\
  Command.validatePathWithAllowedDirs "/sandbox" "notes.txt" ["/sandbox"]
    = Ok "/sandbox/notes.txt" /\
  exists d, Stat (w_fs (sandbox_world [("/sandbox/notes.txt", "hello world")] (Exited 0)))
              "/sandbox/notes.txt" = Some (FFile d) /\
    5%Z = Z.of_nat (String.length "hello") /\
    ((5 < int64_max)%Z ->
       String.prefix "hello" d = true /\
       Z.of_nat (String.length "hello") = Z.min 5 (Z.of_nat (String.length d)) /\
       true = (5 <? Z.of_nat (String.length d))%Z) /\
    (5%Z = int64_max -> "hello" = "" /\ true = false).
Proof.
  assert (H1 : Unmarshal read_file_fields
                 (Text (JObj [("path", JStr "notes.txt"); ("max_bytes", JInt 5)]))
               = Ok [("max_bytes", GInt64 5); ("path", GString "notes.txt");
                     ("path", GString ""); ("max_bytes", GInt64 0)])
    by (vm_compute; reflexivity).
  assert (H2 : readFile_execute (sandbox_ctx CtxLive)
                 (sandbox_world [("/sandbox/notes.txt", "hello world")] (Exited 0))
                 (Text (JObj [("path", JStr "notes.txt"); ("max_bytes", JInt 5)]))
               = (marshalToolResponse "read_file"
                    (Some (PRead "/sandbox/notes.txt" 5 true "hello")) None,
                  sandbox_world [("/sandbox/notes.txt", "hello world")] (Exited 0)))
    by (vm_compute; reflexivity).
  exact (read_file_window _ _ _ _ _ _ _ _ _ H1 H2).
Defined.

(** max_bytes = MaxInt64: an ok:true answer with no content. *)
Lemma read_file_max_int64_reads_nothing :
  readFile_execute (sandbox_ctx CtxLive)
    (sandbox_world [("/sandbox/notes.txt", "hello world")] (Exited 0))
    (Text (JObj [("path", JStr "notes.txt"); ("max_bytes", JInt int64_max)]))
  = (marshalToolResponse "read_file" (Some (PRead "/sandbox/notes.txt" 0 false "")) None,
     sandbox_world [("/sandbox/notes.txt", "hello world")] (Exited 0)).
Proof. vm_compute. reflexivity. Qed.

(** X14: with the registry's write_file and read_file (both check the
    path against the context's AllowedDirs), a read_file of the path a
    successful write_file wrote, with a budget (max_bytes, or
    MaxReadBytes when that is not positive) that is positive, below
    MaxInt64 and no smaller than the content, returns the whole content,
    untruncated, under the same validated path. *)
Theorem write_then_read (ctx : toolContext) (w w1 : world) (args1 args2 : arg_text)
  (a b : assignment) (vp : string) (n : Z) :
  Unmarshal write_file_fields args1 = Ok a ->
  Unmarshal read_file_fields args2 = Ok b ->
  get_string "path" b = get_string "path" a ->
  let m := if (get_int64 "max_bytes" b <=? 0)%Z then MaxReadBytes ctx
           else get_int64 "max_bytes" b in
  (0 < m)%Z -> (m < int64_max)%Z -> (Z.of_nat (String.length (get_string "content" a)) <= m)%Z ->
  tools_writeFile_execute ctx w args1
    = (marshalToolResponse "write_file" (Some (PWrite vp n)) None, w1) ->
  readFile_execute ctx w1 args2
    = (marshalToolResponse "read_file"
         (Some (PRead vp (Z.of_nat (String.length (get_string "content" a))) false
                  (get_string "content" a))) None, w1).
Proof.
  intros Hu1 Hu2 Hpath m Hm Hmax Hlen H.
  unfold tools_writeFile_execute in H. rewrite Hu1 in H.
  destruct (String.eqb (get_string "path" a) "") eqn:Hne;
    [exfalso; eapply fail_not_ok; exact H|].
  destruct (Command.validatePathWithAllowedDirs (w_cwd w) (get_string "path" a) (AllowedDirs ctx))
    as [vp'|pe] eqn:Hv;
    [|exfalso; eapply fail_not_ok; exact H].
  destruct (if get_bool "overwrite" a then None else Stat (w_fs w) vp') as [x|];
    [exfalso; eapply fail_not_ok; exact H|].
  destruct (if negb (String.eqb (Dir vp') ".") && negb (String.eqb (Dir vp') "")
            then MkdirAll (w_fs w) (Dir vp') else Ok (w_fs w)) as [fs1|e];
    [|exfalso; eapply fail_not_ok; exact H].
  destruct (WriteFile fs1 vp' (get_string "content" a)) as [fs2|e] eqn:Hw;
    [|exfalso; eapply fail_not_ok; exact H].
  unfold marshalToolResponse in H. injection H. intros; subst.
  pose proof (WriteFile_stored _ _ _ _ Hw) as Hs.
  unfold readFile_execute. rewrite Hu2, Hpath, Hne. simpl w_cwd. simpl w_fs.
  rewrite Hv.
  unfold validateFileExists. rewrite Hs. fold m.
  destruct (Z.leb_spec m 0) as [Hm'|_]; [lia|].
  rewrite (wrap64_small (m + 1)) by (unfold int64_min, int64_max in *; lia).
  rewrite substring_full by lia.
  destruct (Z.ltb_spec m (Z.of_nat (String.length (get_string "content" a)))); [lia|].
  reflexivity.
Qed.

Lemma write_then_read_witness :
  readFile_execute (sandbox_ctx CtxLive)
    (with_fs (sandbox_world [] (Exited 0))
       (<["/sandbox/notes.txt" := FFile "hello"]> (w_fs (sandbox_world [] (Exited 0)))))
    (read_args "notes.txt")
  = (marshalToolResponse "read_file"
       (Some (PRead "/sandbox/notes.txt" (Z.of_nat (String.length "hello")) false "hello")) None,
     with_fs (sandbox_world [] (Exited 0))
       (<["/sandbox/notes.txt" := FFile "hello"]> (w_fs (sandbox_world [] (Exited 0))))).
Proof.
  apply (write_then_read (sandbox_ctx CtxLive) (sandbox_world [] (Exited 0)) _
           (write_args "notes.txt" "hello" false) (read_args "notes.txt")
           [("overwrite", GBool false); ("content", GString "hello");
            ("path", GString "notes.txt");
            ("path", GString ""); ("content", GString ""); ("overwrite", GBool false)]
           [("path", GString "notes.txt"); ("path", GString ""); ("max_bytes", GInt64 0)]
           "/sandbox/notes.txt" 5).
  - vm_compute. reflexivity.
  - vm_compute. reflexivity.
  - vm_compute. reflexivity.
  - vm_compute. reflexivity.
  - vm_compute. reflexivity.
  - vm_compute. discriminate.
  - vm_compute. reflexivity.
Defined.




(** X15: run_shell starts a process only after every check has passed,
    and then starts exactly one: the first argument [parseCommandLine]
    returns, with the remaining arguments, in the validated working
    directory, with timeout_seconds seconds (wrapped to int64) or 60 s
    when that is not positive. *)
Theorem run_shell_spawns_parsed_argv (ctx : toolContext) (w w' : world) (args : arg_text)
  (a : assignment) (j : json) :
  Unmarshal run_shell_fields args = Ok a ->
  runShell_execute ctx w args = (j, w') ->
  w_spawned w' <> w_spawned w ->
  exists argv0 rest dir,
    containsBlockedShellSyntax (get_string "command" a) = None /\
    parseCommandLine (get_string "command" a) = Ok (argv0 :: rest) /\
    isShellExecutable argv0 = false /\ isDangerousExecutable argv0 = false /\
    validateWorkingDirWithAllowedDirs (w_cwd w) (get_string "working_dir" a) (AllowedDirs ctx)
      = Ok dir /\
    w_spawned w' =
      {| sp_command := argv0; sp_args := rest; sp_dir := dir;
         sp_timeout :=
           let t := wrap64 (get_int64 "timeout_seconds" a * second) in
           if (t <=? 0)%Z then (60 * second)%Z else t |} :: w_spawned w.
Proof.
  intros Hu H Hsp. unfold runShell_execute in H. rewrite Hu in H.
  assert (Hf : forall e, fail "run_shell" w e = (j, w') -> False).
  { intros e He. injection He; intros <- _. apply Hsp. reflexivity. }
  destruct (String.eqb (get_string "command" a) ""); [exfalso; eapply Hf, H|].
  destruct (containsBlockedShellSyntax (get_string "command" a)) eqn:Hb;
    [exfalso; eapply Hf, H|].
  destruct (parseCommandLine (get_string "command" a)) as [[|argv0 rest]|pe] eqn:Hp;
    try (exfalso; eapply Hf, H).
  destruct (validateWorkingDirWithAllowedDirs (w_cwd w) (get_string "working_dir" a)
              (AllowedDirs ctx)) as [dir|pe] eqn:Hv; [|exfalso; eapply Hf, H].
  destruct (isShellExecutable argv0) eqn:Hs; [exfalso; eapply Hf, H|].
  destruct (isDangerousExecutable argv0) eqn:Hd; [exfalso; eapply Hf, H|].
  destruct (runCommand_outcome w argv0 rest dir
              (wrap64 (get_int64 "timeout_seconds" a * second))) as [Hw _].
  destruct (runCommand w argv0 rest dir _) as [r w2] eqn:Hr.
  simpl in Hw. subst w2. injection H; intros Hw' _. subst w'.
  exists argv0, rest, dir. repeat split; first [reflexivity | assumption].
Qed.

Lemma run_shell_spawns_parsed_argv_witness :
  exists argv0 rest dir,
    containsBlockedShellSyntax "ls -la 'my dir'" = None /\
    parseCommandLine "ls -la 'my dir'" = Ok (argv0 :: rest) /\
    isShellExecutable argv0 = false /\ isDangerousExecutable argv0 = false /\
    validateWorkingDirWithAllowedDirs "/sandbox" "" ["/sandbox"] = Ok dir /\
    w_spawned (snd (runShell_execute (sandbox_ctx CtxLive) (sandbox_world [] (Exited 0))
                      (shell_args "ls -la 'my dir'"))) =
      {| sp_command := argv0; sp_args := rest; sp_dir := dir;
         sp_timeout :=
           let t := wrap64 (0 * second) in
           if (t <=? 0)%Z then (60 * second)%Z else t |} :: [].
Proof.
  exact (run_shell_spawns_parsed_argv (sandbox_ctx CtxLive) (sandbox_world [] (Exited 0)) _
           (shell_args "ls -la 'my dir'")
           [("command", GString "ls -la 'my dir'"); ("command", GString "");
            ("working_dir", GString ""); ("timeout_seconds", GInt64 0)]
           _ ltac:(vm_compute; reflexivity)
           (surjective_pairing _) ltac:(vm_compute; discriminate)).
Defined.

(** ** The agent loops and the chat app *)


Lemma appendToolResponses_calls (r : Registry) (w : world) (ms : list message)
  (calls : list ToolCall) :
  exists outs, length outs = length calls /\
    fst (appendToolResponses r w ms calls) =
    app ms (map (fun p => ToolMessage (fst p) (call_id (snd p))) (combine outs calls)).
Proof.
  revert w ms. induction calls as [|c cs IH]; intros w ms; simpl.
  - exists []. split; [reflexivity|]. now rewrite app_nil_r.
  - destruct (Execute r w c) as [o w'].
    destruct (IH w' (app ms [ToolMessage o (call_id c)])) as (outs & Hl & He).
    exists (o :: outs). split; [simpl; lia|]. rewrite He. simpl.
    now rewrite <- app_assoc.
Qed.

(** X16: each tool call of a model answer gets exactly one tool message,
    in the order of the calls and keyed by its call id, appended after
    the messages so far; nothing else is added or removed. *)
Theorem appendToolResponses_one_message_per_call (r : Registry) (w : world)
  (ms : list message) (calls : list ToolCall) :
  exists outs, length outs = length calls /\
    fst (appendToolResponses r w ms calls) =
    app ms (map (fun p => ToolMessage (fst p) (call_id (snd p))) (combine outs calls)).
Proof. exact (appendToolResponses_calls r w ms calls). Qed.

Lemma appendToolResponses_extends (r : Registry) (w : world) (ms : list message)
  (calls : list ToolCall) :
  exists ext, fst (appendToolResponses r w ms calls) = app ms ext.
Proof.
  destruct (appendToolResponses_calls r w ms calls) as (outs & _ & He).
  eexists. exact He.
Qed.

Lemma iterate_sent (mdl : model) (r : Registry) (n turn : nat)
  (cur : list message) (s : loop_state) :
  match n with
  | O => snd (iterate mdl r n turn cur s) = s
  | S n' => exists later, length later <= n' /\
      ls_sent (snd (iterate mdl r n turn cur s)) = app later (cur :: ls_sent s)
  end.
Proof.
  revert turn cur s. induction n as [|n IH]; intros turn cur s; [reflexivity|].
  cbn -[appendToolResponses].
  destruct (runOnce (mdl turn cur)) as [m|e]; [|exists []; split; [simpl; lia|reflexivity]].
  destruct (ToolCalls m) as [|c cs]; [exists []; split; [simpl; lia|reflexivity]|].
  match goal with
  | |- context [appendToolResponses ?r0 ?w0 ?ms0 ?cs0] =>
      destruct (appendToolResponses r0 w0 ms0 cs0) as [cur' w']
  end.
  specialize (IH (S turn) cur' (set_world (send s cur) w')).
  destruct n as [|n].
  - rewrite IH. exists []. split; [simpl; lia|reflexivity].
  - destruct IH as (later & Hl & Hs). exists (app later [cur']). split.
    + rewrite length_app. simpl. lia.
    + rewrite Hs, <- app_assoc. reflexivity.
Qed.

Lemma iterate_ok_final (mdl : model) (r : Registry) (n turn : nat)
  (cur : list message) (s : loop_state) (m : completion_message) (s' : loop_state) :
  iterate mdl r n turn cur s = (Ok m, s') -> ToolCalls m = [].
Proof.
  revert turn cur s. induction n as [|n IH]; intros turn cur s H; [discriminate|].
  cbn -[appendToolResponses] in H.
  destruct (runOnce (mdl turn cur)) as [m0|e]; [|discriminate].
  destruct (ToolCalls m0) as [|c cs] eqn:Hc.
  - injection H; intros _ <-. exact Hc.
  - match type of H with
    | context [appendToolResponses ?r0 ?w0 ?ms0 ?cs0] =>
        destruct (appendToolResponses r0 w0 ms0 cs0) as [cur' w']
    end.
    exact (IH _ _ _ H).
Qed.

Lemma chat_iterate_sent (mdl : model) (r : Registry) (n turn : nat)
  (msgs cur : list message) (lc : string) (s : loop_state) :
  match n with
  | O => snd (chat_iterate mdl r n turn msgs cur lc s) = s
  | S n' => exists later, length later <= n' /\
      ls_sent (snd (chat_iterate mdl r n turn msgs cur lc s)) = app later (cur :: ls_sent s)
  end.
Proof.
  revert turn cur lc s. induction n as [|n IH]; intros turn cur lc s.
  - simpl. destruct (String.eqb lc ""); reflexivity.
  - cbn -[appendToolResponses].
    destruct (runOnce (mdl turn cur)) as [m|e]; [|exists []; split; [simpl; lia|reflexivity]].
    destruct (ToolCalls m) as [|c cs]; [exists []; split; [simpl; lia|reflexivity]|].
    match goal with
    | |- context [appendToolResponses ?r0 ?w0 ?ms0 ?cs0] =>
        destruct (appendToolResponses r0 w0 ms0 cs0) as [cur' w']
    end.
    match goal with
    | |- context [chat_iterate mdl r n (S turn) msgs cur' ?lc1 _] =>
        specialize (IH (S turn) cur' lc1 (set_world (send s cur) w'))
    end.
    destruct n as [|n].
    + rewrite IH. exists []. split; [simpl; lia|reflexivity].
    + destruct IH as (later & Hl & Hs). exists (app later [cur']). split.
      * rewrite length_app. simpl. lia.
      * rewrite Hs, <- app_assoc. reflexivity.
Qed.

Lemma chat_iterate_ok_extends (mdl : model) (r : Registry) (n turn : nat)
  (msgs cur : list message) (lc : string) (s : loop_state)
  (ms : list message) (c : string) (s' : loop_state) :
  chat_iterate mdl r n turn msgs cur lc s = (Ok (ms, c), s') ->
  exists ext, ms = app cur ext.
Proof.
  revert turn cur lc s. induction n as [|n IH]; intros turn cur lc s H.
  - simpl in H. destruct (String.eqb lc ""); [discriminate|].
    injection H; intros _ _ <-. exists []. now rewrite app_nil_r.
  - cbn -[appendToolResponses] in H.
    destruct (runOnce (mdl turn cur)) as [m|e]; [|discriminate].
    destruct (ToolCalls m) as [|c0 cs].
    + injection H; intros _ _ <-. eexists; reflexivity.
    + destruct (appendToolResponses_extends r (ls_world s)
                  (app cur [ToParam m]) (c0 :: cs)) as (ext0 & Hext).
      destruct (appendToolResponses r (ls_world s) (app cur [ToParam m]) (c0 :: cs))
        as [cur' w'] eqn:Ha.
      simpl in Hext. apply IH in H. destruct H as (ext & ->).
      rewrite Hext. exists (app (app [ToParam m] ext0) ext).
      now rewrite !app_assoc.
Qed.

Lemma convert_loop_valid (i : nat) (out : list message) (ms : list Message) :
  forallb (fun msg => valid_role (Role msg)) ms = true ->
  convert_loop i out ms = Ok (app out (map role_message ms)).
Proof.
  revert i out. induction ms as [|msg ms IH]; intros i out Hv.
  - simpl. now rewrite app_nil_r.
  - simpl in Hv. apply andb_prop in Hv. destruct Hv as [Hm Hms].
    simpl. unfold role_message. unfold valid_role in Hm.
    destruct (String.eqb (Role msg) RoleSystem); [rewrite IH by exact Hms; now rewrite <- app_assoc|].
    destruct (String.eqb (Role msg) RoleUser); [rewrite IH by exact Hms; now rewrite <- app_assoc|].
    destruct (String.eqb (Role msg) RoleAssistant); [|discriminate].
    rewrite IH by exact Hms. now rewrite <- app_assoc.
Qed.

Lemma convert_loop_ok_valid (i : nat) (out x : list message) (ms : list Message) :
  convert_loop i out ms = Ok x -> forallb (fun msg => valid_role (Role msg)) ms = true.
Proof.
  revert i out. induction ms as [|msg ms IH]; intros i out H; [reflexivity|].
  simpl in H. simpl. unfold valid_role.
  destruct (String.eqb (Role msg) RoleSystem); [exact (IH _ _ H)|].
  destruct (String.eqb (Role msg) RoleUser); [exact (IH _ _ H)|].
  destruct (String.eqb (Role msg) RoleAssistant); [exact (IH _ _ H)|].
  discriminate.
Qed.

Lemma convert_loop_invalid (i : nat) (out : list message) (pre post : list Message)
  (msg : Message) :
  forallb (fun m => valid_role (Role m)) pre = true -> valid_role (Role msg) = false ->
  convert_loop i out (app pre (msg :: post)) =
  Err ("invalid message role at index " ++ Z_to_str (Z.of_nat (i + length pre)) ++ ": "
       ++ go_quote (Role msg)).
Proof.
  revert i out. induction pre as [|m pre IH]; intros i out Hv Hb.
  - simpl. unfold valid_role in Hb.
    destruct (String.eqb (Role msg) RoleSystem); [discriminate|].
    destruct (String.eqb (Role msg) RoleUser); [discriminate|].
    destruct (String.eqb (Role msg) RoleAssistant); [discriminate|].
    now rewrite Nat.add_0_r.
  - simpl in Hv. apply andb_prop in Hv. destruct Hv as [Hm Hms].
    simpl. unfold valid_role in Hm.
    replace (i + S (length pre)) with (S i + length pre) by lia.
    destruct (String.eqb (Role m) RoleSystem); [exact (IH _ _ Hms Hb)|].
    destruct (String.eqb (Role m) RoleUser); [exact (IH _ _ Hms Hb)|].
    destruct (String.eqb (Role m) RoleAssistant); [exact (IH _ _ Hms Hb)|].
    discriminate.
Qed.

(** X17: when [AgentLoop.Run] succeeds, the input was not blank, the
    final answer has no tool calls, the history grew by exactly the
    trimmed user message and that answer (the intermediate tool turns
    are not kept), and the first request sent was the old history with
    the user message, followed by fewer than [MaxTurns] further
    requests. *)
Theorem Run_success (mdl : model) (a : AgentLoop) (s : loop_state) (input : string)
  (m : completion_message) (a' : AgentLoop) (s' : loop_state) :
  Run mdl a s input = (Ok m, a', s') ->
  TrimSpace input <> "" /\ ToolCalls m = [] /\
  history a' = app (history a) [UserMessage (TrimSpace input); ToParam m] /\
  MaxTurns a' = MaxTurns a /\ tools a' = tools a /\
  exists later, length later < Z.to_nat (MaxTurns a) /\
    ls_sent s' = app later (app (history a) [UserMessage (TrimSpace input)] :: ls_sent s).
Proof.
  unfold Run. intros H.
  destruct (String.eqb (TrimSpace input) "") eqn:E; [discriminate|].
  apply String.eqb_neq in E. unfold runIteration in H. cbn [history MaxTurns tools set_history] in H.
  pose proof (iterate_sent mdl (tools a) (Z.to_nat (MaxTurns a)) 0
                (app (history a) [UserMessage (TrimSpace input)]) s) as Hs.
  destruct (iterate mdl (tools a) (Z.to_nat (MaxTurns a)) 0
              (app (history a) [UserMessage (TrimSpace input)]) s) as [[m0|e] s0] eqn:Hi;
    [|discriminate].
  injection H; intros <- <- <-.
  split; [exact E|]. split; [exact (iterate_ok_final _ _ _ _ _ _ _ _ Hi)|].
  split; [simpl; now rewrite <- app_assoc|].
  split; [reflexivity|]. split; [reflexivity|].
  destruct (Z.to_nat (MaxTurns a)) as [|n]; [discriminate|].
  destruct Hs as (later & Hl & Hsent). exists later. split; [lia|exact Hsent].
Qed.

(** X18: [AgentLoop.Run] sends no request and changes nothing when the
    input is blank (error "user input is required") or when the turn
    budget is not positive (the max-turns error). *)
Theorem Run_without_request (mdl : model) (a : AgentLoop) (s : loop_state) (input : string) :
  (TrimSpace input = "" -> Run mdl a s input = (Err "user input is required", a, s)) /\
  (TrimSpace input <> "" -> (MaxTurns a <= 0)%Z ->
   Run mdl a s input = (Err max_turns_error, a, s)).
Proof.
  unfold Run. split.
  - intros E. now rewrite E.
  - intros E Hm. apply String.eqb_neq in E. rewrite E.
    unfold runIteration. cbn [history MaxTurns tools set_history].
    replace (Z.to_nat (MaxTurns a)) with 0%nat by lia. simpl.
    rewrite firstn_app, Nat.sub_diag, firstn_all. simpl. rewrite app_nil_r.
    destruct a; reflexivity.
Qed.

Lemma runChatLoop_sent (mdl : model) (r : Registry) (messages : list message)
  (maxTurns : Z) (s : loop_state) res s' :
  runChatLoop mdl r messages maxTurns s = (res, s') ->
  (exists later, length later < Z.to_nat (Z.max 1 maxTurns) /\
     ls_sent s' = app later (messages :: ls_sent s)) /\
  (forall ms c, res = Ok (ms, c) -> exists ext, ms = app messages ext).
Proof.
  unfold runChatLoop. intros H.
  pose proof (chat_iterate_sent mdl r (Z.to_nat (if (maxTurns <=? 0)%Z then 1%Z else maxTurns)) 0
                messages messages "" s) as Hs.
  pose proof (chat_iterate_ok_extends mdl r (Z.to_nat (if (maxTurns <=? 0)%Z then 1%Z else maxTurns)) 0
                messages messages "" s) as Hx.
  rewrite H in Hs, Hx. simpl in Hs. split.
  - replace (Z.to_nat (Z.max 1 maxTurns)) with (Z.to_nat (if (maxTurns <=? 0)%Z then 1%Z else maxTurns))
      by (destruct (Z.leb_spec maxTurns 0); lia).
    destruct (Z.to_nat (if (maxTurns <=? 0)%Z then 1%Z else maxTurns)) as [|n] eqn:En.
    + exfalso. destruct (Z.leb_spec maxTurns 0); lia.
    + destruct Hs as (later & Hl & Hsent). exists later. split; [lia|exact Hsent].
  - intros ms c ->. exact (Hx ms c s' eq_refl).
Qed.

Lemma toOpenAIMessages_ok (systemPrompt : string) (messages : list Message)
  (out : list message) :
  toOpenAIMessages systemPrompt messages = Ok out <->
  forallb (fun msg => valid_role (Role msg)) messages = true /\
  out = app (if existsb (fun msg => String.eqb (Role msg) RoleSystem) messages
             then [] else [SystemMessage systemPrompt])
            (map role_message messages).
Proof.
  unfold toOpenAIMessages. split.
  - intros H. pose proof (convert_loop_ok_valid _ _ _ _ H) as Hv. split; [exact Hv|].
    rewrite convert_loop_valid in H by exact Hv. injection H; intros <-. reflexivity.
  - intros [Hv ->]. now rewrite convert_loop_valid by exact Hv.
Qed.

(** X19: [App.runChatLoop] always sends its input messages as the first
    request and makes at most [max 1 maxTurns] requests in total; on
    success the returned messages start with the input messages. *)
Theorem runChatLoop_requests (mdl : model) (r : Registry) (messages : list message)
  (maxTurns : Z) (s : loop_state) res s' :
  runChatLoop mdl r messages maxTurns s = (res, s') ->
  (exists later, length later < Z.to_nat (Z.max 1 maxTurns) /\
     ls_sent s' = app later (messages :: ls_sent s)) /\
  (forall ms c, res = Ok (ms, c) -> exists ext, ms = app messages ext).
Proof. exact (runChatLoop_sent mdl r messages maxTurns s res s'). Qed.

(** X20: [App.toOpenAIMessages] succeeds exactly when every role is
    system, user or assistant; it then converts the messages one for
    one, in order, after the app system prompt, which is added only when
    no message has the system role. *)
Theorem toOpenAIMessages_spec (systemPrompt : string) (messages : list Message)
  (out : list message) :
  toOpenAIMessages systemPrompt messages = Ok out <->
  forallb (fun msg => valid_role (Role msg)) messages = true /\
  out = app (if existsb (fun msg => String.eqb (Role msg) RoleSystem) messages
             then [] else [SystemMessage systemPrompt])
            (map role_message messages).
Proof. exact (toOpenAIMessages_ok systemPrompt messages out). Qed.

(** X21: [App.Chat] with a message whose role is not system, user or
    assistant fails with an error naming the index and the [%q]-quoted
    role of the first such message, before any model request (for an
    ASCII role, where [go_quote] is [strconv.Quote]). *)
Theorem ChatApp_invalid_role (mdl : model) (r : Registry) (configMaxTurns : Z)
  (systemPrompt : string) (pre post : list Message) (msg : Message) (optsMaxTurns : Z)
  (s : loop_state) :
  forallb (fun m => valid_role (Role m)) pre = true -> valid_role (Role msg) = false ->
  ascii_only (Role msg) = true ->
  ChatApp mdl r configMaxTurns systemPrompt (app pre (msg :: post)) optsMaxTurns s =
  (Err ("invalid message role at index " ++ Z_to_str (Z.of_nat (length pre)) ++ ": "
        ++ go_quote (Role msg)), s).
Proof.
  intros Hv Hb _. unfold ChatApp, toOpenAIMessages.
  now rewrite convert_loop_invalid by assumption.
Qed.

(** X22: when [App.Chat] succeeds, every message role was valid, the
    first request sent was the converted conversation, and the returned
    conversation is the input, with one assistant message carrying the
    returned content appended exactly when that content is not blank. *)
Theorem ChatApp_success (mdl : model) (r : Registry) (configMaxTurns : Z)
  (systemPrompt : string) (messages : list Message) (optsMaxTurns : Z)
  (s : loop_state) (res : ChatResult) (s' : loop_state) :
  ChatApp mdl r configMaxTurns systemPrompt messages optsMaxTurns s = (Ok res, s') ->
  forallb (fun msg => valid_role (Role msg)) messages = true /\
  (exists later,
     ls_sent s' = app later
       (app (if existsb (fun msg => String.eqb (Role msg) RoleSystem) messages
             then [] else [SystemMessage systemPrompt])
            (map role_message messages) :: ls_sent s)) /\
  (cr_Messages res = messages \/
   (TrimSpace (cr_Content res) <> "" /\
    cr_Messages res = app messages [{| Role := RoleAssistant; MsgContent := cr_Content res |}])).
Proof.
  unfold ChatApp. intros H.
  destruct (toOpenAIMessages systemPrompt messages) as [internal|e] eqn:Ht; [|discriminate].
  apply toOpenAIMessages_ok in Ht. destruct Ht as [Hv Hint].
  unfold Chat in H.
  destruct (runChatLoop mdl r internal
              (if (optsMaxTurns <=? 0)%Z then configMaxTurns else optsMaxTurns) s)
    as [[[ms c]|e] s0] eqn:Hc; [|discriminate].
  apply runChatLoop_sent in Hc. destruct Hc as [(later & _ & Hsent) _].
  injection H; intros <- <-.
  split; [exact Hv|]. split; [exists later; rewrite <- Hint; exact Hsent|].
  cbn [cr_Messages cr_Content].
  destruct (String.eqb (TrimSpace c) "") eqn:E; simpl.
  - left. reflexivity.
  - right. split; [now apply String.eqb_neq|reflexivity].
Qed.

Lemma Run_success_witness :
  let R := Run answer_after_tool sample_agent start_state " hi " in
  TrimSpace " hi " <> "" /\ ToolCalls {| Content := "done"; ToolCalls := [] |} = [] /\
  history (snd (fst R)) = app (history sample_agent)
    [UserMessage (TrimSpace " hi "); ToParam {| Content := "done"; ToolCalls := [] |}] /\
  MaxTurns (snd (fst R)) = MaxTurns sample_agent /\ tools (snd (fst R)) = tools sample_agent /\
  exists later, length later < Z.to_nat (MaxTurns sample_agent) /\
    ls_sent (snd R) = app later (app (history sample_agent) [UserMessage (TrimSpace " hi ")]
                                 :: ls_sent start_state).
Proof.
  exact (Run_success answer_after_tool sample_agent start_state " hi "
           {| Content := "done"; ToolCalls := [] |} _ _ ltac:(vm_compute; reflexivity)).
Defined.

Lemma Run_without_request_witness :
  Run answer_after_tool sample_agent start_state " " = (Err "user input is required", sample_agent, start_state) /\
  Run answer_after_tool {| MaxTurns := 0; tools := sample_registry; history := [] |} start_state "hi"
    = (Err max_turns_error, {| MaxTurns := 0; tools := sample_registry; history := [] |}, start_state).
Proof.
  split.
  - exact (proj1 (Run_without_request answer_after_tool sample_agent start_state " ")
             ltac:(vm_compute; reflexivity)).
  - exact (proj2 (Run_without_request answer_after_tool
                    {| MaxTurns := 0; tools := sample_registry; history := [] |} start_state "hi")
             ltac:(vm_compute; discriminate) ltac:(vm_compute; discriminate)).
Defined.

Lemma runChatLoop_requests_witness :
  let R := runChatLoop answer_after_tool sample_registry [UserMessage "hi"] 0 start_state in
  (exists later, length later < Z.to_nat (Z.max 1 0) /\
     ls_sent (snd R) = app later ([UserMessage "hi"] :: ls_sent start_state)) /\
  (forall ms c, fst R = Ok (ms, c) -> exists ext, ms = app [UserMessage "hi"] ext).
Proof.
  exact (runChatLoop_requests answer_after_tool sample_registry [UserMessage "hi"] 0 start_state
           _ _ (surjective_pairing _)).
Defined.

Lemma ChatApp_invalid_role_witness :
  ChatApp answer_after_tool sample_registry 3 "sys"
    (app [{| Role := "user"; MsgContent := "hi" |}]
         ({| Role := String "a" (String (ascii_of_nat 9) "b"); MsgContent := "x" |} :: []))
    0 start_state =
  (Err ("invalid message role at index " ++ Z_to_str (Z.of_nat 1) ++ ": "
        ++ go_quote (String "a" (String (ascii_of_nat 9) "b"))),
   start_state) /\
  go_quote (String "a" (String (ascii_of_nat 9) "b"))
  = String quote_char (String "a" (String backslash (String "t" (String "b" (String quote_char ""))))).
Proof.
  split; [|vm_compute; reflexivity].
  exact (ChatApp_invalid_role answer_after_tool sample_registry 3 "sys"
           [{| Role := "user"; MsgContent := "hi" |}] []
           {| Role := String "a" (String (ascii_of_nat 9) "b"); MsgContent := "x" |}
           0 start_state ltac:(vm_compute; reflexivity) ltac:(vm_compute; reflexivity)
           ltac:(vm_compute; reflexivity)).
Defined.

Lemma ChatApp_success_witness :
  let R := ChatApp answer_after_tool sample_registry 3 "sys"
             [{| Role := "user"; MsgContent := "hi" |}] 0 start_state in
  forallb (fun msg => valid_role (Role msg)) [{| Role := "user"; MsgContent := "hi" |}] = true /\
  (exists later,
     ls_sent (snd R) = app later
       (app (if existsb (fun msg => String.eqb (Role msg) RoleSystem)
                  [{| Role := "user"; MsgContent := "hi" |}]
             then [] else [SystemMessage "sys"])
            (map role_message [{| Role := "user"; MsgContent := "hi" |}]) :: ls_sent start_state)) /\
  (cr_Messages {| cr_Content := "done";
                  cr_Messages := [{| Role := "user"; MsgContent := "hi" |};
                                  {| Role := "assistant"; MsgContent := "done" |}] |}
     = [{| Role := "user"; MsgContent := "hi" |}] \/
   (TrimSpace "done" <> "" /\
    cr_Messages {| cr_Content := "done";
                  cr_Messages := [{| Role := "user"; MsgContent := "hi" |};
                                  {| Role := "assistant"; MsgContent := "done" |}] |}
    = app [{| Role := "user"; MsgContent := "hi" |}]
          [{| Role := RoleAssistant; MsgContent := "done" |}])).
Proof.
  exact (ChatApp_success answer_after_tool sample_registry 3 "sys"
           [{| Role := "user"; MsgContent := "hi" |}] 0 start_state
           {| cr_Content := "done";
              cr_Messages := [{| Role := "user"; MsgContent := "hi" |};
                              {| Role := "assistant"; MsgContent := "done" |}] |}
           _ ltac:(vm_compute; reflexivity)).
Defined.


(** ** TrimSpace *)

Lemma drop_spaces_length (l : list ascii) : length (drop_spaces l) <= length l.
Proof.
  induction l as [l IH] using list_strong_ind.
  destruct l as [|c l]; [reflexivity|]. rewrite (drop_spaces_eq c).
  destruct l as [|d [|e l]].
  - destruct (is_space c); simpl; lia.
  - destruct (is_space c); [specialize (IH [d]); simpl in *; lia|].
    destruct (space2 c d); simpl; lia.
  - destruct (is_space c); [specialize (IH (d :: e :: l)); simpl in *; lia|].
    destruct (space2 c d); [specialize (IH (e :: l)); simpl in *; lia|].
    destruct (space3 c d e); [specialize (IH l); simpl in *; lia|reflexivity].
Qed.

Lemma drop_spaces_idem (l : list ascii) : drop_spaces (drop_spaces l) = drop_spaces l.
Proof.
  induction l as [l IH] using list_strong_ind.
  destruct l as [|c l]; [reflexivity|]. rewrite (drop_spaces_eq c).
  destruct l as [|d [|e l]].
  - destruct (is_space c) eqn:Ec; [reflexivity|]. rewrite drop_spaces_eq. now rewrite Ec.
  - destruct (is_space c) eqn:Ec; [apply (IH [d]); simpl; lia|].
    destruct (space2 c d) eqn:E2; [reflexivity|]. rewrite drop_spaces_eq. now rewrite Ec, E2.
  - destruct (is_space c) eqn:Ec; [apply (IH (d :: e :: l)); simpl; lia|].
    destruct (space2 c d) eqn:E2; [apply (IH (e :: l)); simpl; lia|].
    destruct (space3 c d e) eqn:E3; [apply IH; simpl; lia|].
    rewrite drop_spaces_eq. now rewrite Ec, E2, E3.
Qed.

Lemma drop_spaces_rev_idem (l : list ascii) :
  drop_spaces_rev (drop_spaces_rev l) = drop_spaces_rev l.
Proof.
  induction l as [l IH] using list_strong_ind.
  destruct l as [|c l]; [reflexivity|]. rewrite (drop_spaces_rev_eq c).
  destruct l as [|d [|e l]].
  - destruct (is_space c) eqn:Ec; [reflexivity|]. rewrite drop_spaces_rev_eq. now rewrite Ec.
  - destruct (is_space c) eqn:Ec; [apply (IH [d]); simpl; lia|].
    destruct (space2 d c) eqn:E2; [reflexivity|]. rewrite drop_spaces_rev_eq. now rewrite Ec, E2.
  - destruct (is_space c) eqn:Ec; [apply (IH (d :: e :: l)); simpl; lia|].
    destruct (space2 d c) eqn:E2; [apply (IH (e :: l)); simpl; lia|].
    destruct (space3 e d c) eqn:E3; [apply IH; simpl; lia|].
    rewrite drop_spaces_rev_eq. now rewrite Ec, E2, E3.
Qed.

Lemma drop_spaces_rev_split (l : list ascii) :
  exists P, l = app P (drop_spaces_rev l).
Proof.
  induction l as [l IH] using list_strong_ind.
  destruct l as [|c l]; [exists []; reflexivity|]. rewrite (drop_spaces_rev_eq c).
  destruct l as [|d [|e l]].
  - destruct (is_space c); [exists [c]|exists []]; reflexivity.
  - destruct (is_space c).
    + destruct (IH [d]) as (P & HP); [simpl; lia|]. exists (c :: P). cbn [app]. now rewrite <- HP.
    + destruct (space2 d c); [exists [c; d]|exists []]; reflexivity.
  - destruct (is_space c).
    + destruct (IH (d :: e :: l)) as (P & HP); [simpl; lia|].
      exists (c :: P). cbn [app]. now rewrite <- HP.
    + destruct (space2 d c).
      * destruct (IH (e :: l)) as (P & HP); [simpl; lia|].
        exists (c :: d :: P). cbn [app]. now rewrite <- HP.
      * destruct (space3 e d c); [|exists []; reflexivity].
        destruct (IH l) as (P & HP); [simpl; lia|].
        exists (c :: d :: e :: P). cbn [app]. now rewrite <- HP.
Qed.

(** A list that [drop_spaces] leaves alone does not start with a space,
    nor does any non-empty prefix of it. *)
Lemma drop_spaces_prefix (P Q : list ascii) :
  drop_spaces (app P Q) = app P Q -> drop_spaces P = P.
Proof.
  intros H.
  assert (Hs : forall l, drop_spaces l = l -> forall k, length k < length l -> drop_spaces k <> l).
  { intros l _ k Hk E. pose proof (drop_spaces_length k). rewrite E in *. lia. }
  pose proof H as H0.
  destruct P as [|c [|d [|e P]]]; [reflexivity| | |]; cbn [app] in H, H0 |- *;
    rewrite drop_spaces_eq in H |- *.
  - destruct (is_space c); [|reflexivity].
    exfalso. apply (Hs _ H0 Q); [simpl; lia|exact H].
  - destruct (is_space c); [exfalso; apply (Hs _ H0 (d :: Q)); [simpl; lia|exact H]|].
    destruct (space2 c d); [|reflexivity].
    exfalso. apply (Hs _ H0 Q); [simpl; lia|exact H].
  - destruct (is_space c); [exfalso; apply (Hs _ H0 (d :: e :: app P Q)); [simpl; lia|exact H]|].
    destruct (space2 c d); [exfalso; apply (Hs _ H0 (e :: app P Q)); [simpl; lia|exact H]|].
    destruct (space3 c d e); [exfalso; apply (Hs _ H0 (app P Q)); [simpl; lia|exact H]|].
    reflexivity.
Qed.

Lemma TrimSpace_idem (s : string) : TrimSpace (TrimSpace s) = TrimSpace s.
Proof.
  unfold TrimSpace at 1 3. unfold TrimSpace. rewrite list_ascii_of_string_of_list_ascii.
  set (A := drop_spaces (list_ascii_of_string s)).
  set (B := drop_spaces_rev (rev A)).
  assert (HrB : drop_spaces (rev B) = rev B).
  { destruct (drop_spaces_rev_split (rev A)) as (P & HP). fold B in HP.
    assert (E : A = app (rev B) (rev P)).
    { rewrite <- rev_app_distr, <- HP, rev_involutive. reflexivity. }
    apply (drop_spaces_prefix (rev B) (rev P)). rewrite <- E. apply drop_spaces_idem. }
  rewrite HrB, rev_involutive. unfold B at 1. rewrite drop_spaces_rev_idem. reflexivity.
Qed.

(** ** config.Normalize *)

Lemma normalize_skills_spec (dirs acc : list string) :
  Config.normalize_skills dirs acc =
  app acc (List.filter (fun d => negb (String.eqb d "")) (map TrimSpace dirs)).
Proof.
  revert acc. induction dirs as [|d dirs IH]; intros acc; simpl.
  - now rewrite app_nil_r.
  - destruct (String.eqb (TrimSpace d) ""); simpl.
    + apply IH.
    + rewrite IH. now rewrite <- app_assoc.
Qed.

Lemma map_TrimSpace_filter (dirs : list string) :
  map TrimSpace (List.filter (fun d => negb (String.eqb d "")) (map TrimSpace dirs)) =
  List.filter (fun d => negb (String.eqb d "")) (map TrimSpace dirs).
Proof.
  induction dirs as [|d dirs IH]; simpl; [reflexivity|].
  destruct (String.eqb (TrimSpace d) ""); simpl; [exact IH|].
  now rewrite TrimSpace_idem, IH.
Qed.

Lemma filter_nonblank_idem (l : list string) :
  List.filter (fun d => negb (String.eqb d ""))
    (List.filter (fun d => negb (String.eqb d "")) l) =
  List.filter (fun d => negb (String.eqb d "")) l.
Proof.
  induction l as [|d l IH]; simpl; [reflexivity|].
  destruct (String.eqb d "") eqn:E; simpl; [exact IH|]. now rewrite E, IH.
Qed.

(** X23: [config.Normalize] keeps the trimmed non-blank skills
    directories in order, makes [MaxTurns] at least 1 (keeping a
    positive value), and is idempotent. *)
Theorem Normalize_spec (cfg : Config.Config) :
  Config.SkillsDirs (Config.Normalize cfg) =
    List.filter (fun d => negb (String.eqb d "")) (map TrimSpace (Config.SkillsDirs cfg)) /\
  (1 <= Config.MaxTurns (Config.Normalize cfg))%Z /\
  (0 < Config.MaxTurns cfg -> Config.MaxTurns (Config.Normalize cfg) = Config.MaxTurns cfg)%Z /\
  Config.Normalize (Config.Normalize cfg) = Config.Normalize cfg.
Proof.
  split; [unfold Config.Normalize; simpl; apply normalize_skills_spec|].
  split; [unfold Config.Normalize; simpl; destruct (Z.leb_spec (Config.MaxTurns cfg) 0); lia|].
  split; [intros H; unfold Config.Normalize; simpl; destruct (Z.leb_spec (Config.MaxTurns cfg) 0); lia|].
  unfold Config.Normalize at 1. cbn [Config.SkillsDirs Config.MaxTurns Config.Verbose
    Config.AllowedDir Config.APIKey Config.BaseURL Config.Model].
  unfold Config.Normalize. cbn [Config.SkillsDirs Config.MaxTurns Config.Verbose
    Config.AllowedDir Config.APIKey Config.BaseURL Config.Model].
  rewrite !TrimSpace_idem, !normalize_skills_spec, !app_nil_l, map_TrimSpace_filter,
    filter_nonblank_idem.
  f_equal. destruct (Z.leb_spec (Config.MaxTurns cfg) 0).
  - reflexivity.
  - destruct (Z.leb_spec (Config.MaxTurns cfg) 0); [lia|reflexivity].
Qed.

(** ** sanitizedEnv *)

Lemma env_name_split (kv : string) :
  lacks "="%char kv = false ->
  lacks "="%char (env_name kv) = true /\ exists R, kv = env_name kv ++ String "="%char R.
Proof.
  induction kv as [|c kv IH]; simpl; [discriminate|].
  destruct (Ascii.eqb_spec c "="%char) as [->|Hc]; simpl.
  - intros _. split; [reflexivity|]. exists kv. reflexivity.
  - intros H. destruct (IH H) as (Hl & R & HR).
    split; [simpl; rewrite (proj2 (Ascii.eqb_neq c "="%char) Hc); exact Hl|].
    exists R. rewrite str_app_cons, <- HR. reflexivity.
Qed.

Lemma prefix_cons (a b : ascii) (s t : string) :
  String.prefix (String a s) (String b t) = if ascii_dec a b then String.prefix s t else false.
Proof. reflexivity. Qed.

Lemma prefix_nil (t : string) : String.prefix "" t = true.
Proof. destruct t; reflexivity. Qed.

Lemma prefix_key (K N R : string) :
  lacks "="%char K = true -> lacks "="%char N = true ->
  String.prefix (K ++ "=") (N ++ String "="%char R) = String.eqb K N.
Proof.
  revert N. induction K as [|k K IH]; intros N HK HN.
  - destruct N as [|n N].
    + rewrite !str_app_nil_l. change "=" with (String "="%char "").
      rewrite prefix_cons, prefix_nil. destruct (ascii_dec "="%char "="%char); [reflexivity|congruence].
    + cbn [lacks] in HN. apply andb_prop in HN. destruct HN as [Hn _].
      rewrite str_app_nil_l, str_app_cons. change "=" with (String "="%char "").
      rewrite prefix_cons. destruct (ascii_dec "="%char n) as [<-|E]; [discriminate|reflexivity].
  - cbn [lacks] in HK. apply andb_prop in HK. destruct HK as [Hk HK].
    destruct N as [|n N].
    + rewrite str_app_cons, str_app_nil_l. rewrite prefix_cons.
      destruct (ascii_dec k "="%char) as [->|E]; [discriminate|reflexivity].
    + cbn [lacks] in HN. apply andb_prop in HN. destruct HN as [_ HN].
      rewrite !str_app_cons, prefix_cons, (IH N HK HN).
      change (String.eqb (String k K) (String n N)) with
        (if Ascii.eqb k n then String.eqb K N else false).
      destruct (ascii_dec k n) as [->|E]; [now rewrite Ascii.eqb_refl|].
      destruct (Ascii.eqb_spec k n); [congruence|reflexivity].
Qed.

Lemma prefix_short (P N R : string) :
  lacks "="%char P = true ->
  String.prefix P (N ++ String "="%char R) = String.prefix P N.
Proof.
  revert N. induction P as [|p P IH]; intros N HP.
  - rewrite !prefix_nil. reflexivity.
  - cbn [lacks] in HP. apply andb_prop in HP. destruct HP as [Hp HP].
    destruct N as [|n N].
    + rewrite str_app_nil_l, prefix_cons.
      destruct (ascii_dec p "="%char) as [->|E]; [discriminate|reflexivity].
    + rewrite str_app_cons, !prefix_cons. destruct (ascii_dec p n); [apply IH, HP|reflexivity].
Qed.

Lemma existsb_keys (Ks : list string) (N R : string) :
  forallb (lacks "="%char) Ks = true -> lacks "="%char N = true ->
  existsb (fun prefix => HasPrefix (N ++ String "="%char R) prefix)
    (map (fun K => K ++ "=") Ks) = existsb (String.eqb N) Ks.
Proof.
  induction Ks as [|K Ks IH]; simpl; [reflexivity|]. intros HKs HN.
  apply andb_prop in HKs. destruct HKs as [HK HKs].
  unfold HasPrefix. rewrite prefix_key by assumption.
  unfold HasPrefix in IH. rewrite IH by assumption.
  now rewrite String.eqb_sym.
Qed.

(** X24: for environment entries that all contain "=", [sanitizedEnv]
    keeps exactly the entries whose variable name is one of PATH, HOME,
    USER, LOGNAME, SHELL, TMPDIR, TMP, TEMP, LANG, TERM, PWD or starts
    with LC_ (so PATHX=... is dropped). *)
Theorem sanitizedEnv_by_name (environ : list string) :
  forallb (fun kv => negb (lacks "="%char kv)) environ = true ->
  sanitizedEnv environ = List.filter (fun kv => allowed_env_name (env_name kv)) environ.
Proof.
  unfold sanitizedEnv. induction environ as [|kv env IH]; [reflexivity|].
  cbn [List.filter forallb]. intros H. apply andb_prop in H. destruct H as [Hkv H].
  rewrite (IH H).
  assert (Hl : lacks "="%char kv = false) by (destruct (lacks "="%char kv); easy).
  destruct (env_name_split kv Hl) as (HN & R & HR).
  set (N := env_name kv) in *. clearbody N. rewrite HR.
  assert (Ep : allowedPrefixes =
    app (map (fun K => K ++ "=") ["PATH"; "HOME"; "USER"; "LOGNAME"; "SHELL"; "TMPDIR";
                                 "TMP"; "TEMP"; "LANG"])
        ("LC_" :: map (fun K => K ++ "=") ["TERM"; "PWD"])) by reflexivity.
  rewrite Ep, existsb_app. cbn [existsb].
  rewrite !existsb_keys by (first [reflexivity | assumption]).
  unfold HasPrefix. rewrite prefix_short by reflexivity.
  unfold allowed_env_name, HasPrefix.
  replace ["PATH"; "HOME"; "USER"; "LOGNAME"; "SHELL"; "TMPDIR"; "TMP"; "TEMP"; "LANG";
           "TERM"; "PWD"]
    with (app ["PATH"; "HOME"; "USER"; "LOGNAME"; "SHELL"; "TMPDIR"; "TMP"; "TEMP"; "LANG"]
              ["TERM"; "PWD"]) by reflexivity.
  rewrite existsb_app.
  destruct (existsb (String.eqb N) ["PATH"; "HOME"; "USER"; "LOGNAME"; "SHELL"; "TMPDIR";
                                    "TMP"; "TEMP"; "LANG"]),
           (String.prefix "LC_" N), (existsb (String.eqb N) ["TERM"; "PWD"]); reflexivity.
Qed.

Lemma sanitizedEnv_by_name_witness :
  sanitizedEnv ["PATH=/bin"; "PATHX=1"; "LC_ALL=C"; "TMPDIR=/tmp"; "SECRET=x"] =
  List.filter (fun kv => allowed_env_name (env_name kv))
    ["PATH=/bin"; "PATHX=1"; "LC_ALL=C"; "TMPDIR=/tmp"; "SECRET=x"].
Proof.
  exact (sanitizedEnv_by_name ["PATH=/bin"; "PATHX=1"; "LC_ALL=C"; "TMPDIR=/tmp"; "SECRET=x"]
           ltac:(vm_compute; reflexivity)).
Defined.

End ExtraFacts.
